(** * GitLens: heatmap blame annotations, the explorer's root lifecycle,
    auto refresh, and the line blame commands

  A shallow embedding of
    - src/annotations/heatmapBlameAnnotationProvider.ts
    - src/views/gitExplorer.ts
    - src/commands/showLineBlame.ts, src/commands/toggleLineBlame.ts
  JavaScript objects that are compared with [===] or shared between
  containers carry an explicit object identity (a natural number drawn
  from an allocation counter); calls into the editor, the logger and the
  configuration store are recorded as effects, in program order. *)

From stdpp Require Import gmap strings list fin_maps.
From Stdlib Require Import ZArith Lia.

Open Scope Z_scope.
Open Scope nat_scope.
Open Scope string_scope.
Open Scope list_scope.

(* ===================================================================== *)
(** ** Heatmap blame annotation provider *)
(* ===================================================================== *)

Module Heatmap.

(** One entry of [blame.lines]: the commit a line is attributed to. *)
Record GitCommitLine := mkLine { sha : string; line : nat }.

(** [new Range(startLine, startCharacter, endLine, endCharacter)]. *)
Record Range := mkRange {
startLine : nat; startCharacter : nat; endLine : nat; endCharacter : nat }.

(** [new Range(line, 0, line, 0)] *)
Definition lineRange (n : nat) : Range := mkRange n 0 n 0.

(** [FileAnnotationType], declared in configuration.ts. *)
Inductive FileAnnotationType := Gutter | Heatmap | Hover | RecentChanges.

Section Provider.

(** [GitBlameCommit], the value that [IRenderOptions] stands for, and the
    fields of a [DecorationOptions] other than [range]. *)
Context {GitBlameCommit RenderOptions Style : Type}.

(** What [Annotations.heatmap(commit, now, renderOptions)] computes for
    the fields other than [range], and what
    [Annotations.heatmapRenderOptions()] returns. *)
Variable heatmap_style : GitBlameCommit -> Z -> RenderOptions -> Style.
Variable heatmapRenderOptions : RenderOptions.

(** The nested style object of a decoration. The spread
    [{...heatmap, range: r}] is shallow: it copies the reference, so the
    clone has the object with the same identity. *)
Record Payload := mkPayload { oid : nat; value : Style }.

Record DecorationOptions := mkDecoration {
  payload : Payload;
  range : option Range }.

(** [{ ...heatmap, range: r }] and [heatmap.range = r] *)
Definition with_range (d : DecorationOptions) (r : Range) : DecorationOptions :=
  mkDecoration (payload d) (Some r).

(** Modelled from the spec: [Annotations.heatmap] (annotations.ts is not
    part of the sources) computes a fresh style payload from
    (commit, now, styleOptions); the range is not yet bound. [next] is the
    allocation counter of style objects. *)
Definition Annotations_heatmap (commit : GitBlameCommit) (now : Z)
    (renderOptions : RenderOptions) (next : nat) : DecorationOptions * nat :=
  (mkDecoration (mkPayload next (heatmap_style commit now renderOptions)) None,
   S next).

(** [GitBlame]: the ordered lines and the [Map] from sha to commit. *)
Record GitBlame := mkBlame {
  lines : list GitCommitLine;
  commits : gmap string GitBlameCommit }.

(** The variables of the loop: [this.decorations], [decorationsMap] and
    the allocation counter. *)
Record LoopState := mkLoop {
  ls_decorations : list DecorationOptions;
  ls_map : gmap string DecorationOptions;
  ls_next : nat }.

(** The body of [for (const l of blame.lines)]. *)
Definition loop_body (blame : GitBlame) (now : Z) (renderOptions : RenderOptions)
    (s : LoopState) (l : GitCommitLine) : LoopState :=
  match ls_map s !! sha l with
  | Some heatmap =>
      let heatmap := with_range heatmap (lineRange (line l)) in
      mkLoop (ls_decorations s ++ [heatmap]) (ls_map s) (ls_next s)
  | None =>
      match commits blame !! sha l with
      | None => s
      | Some commit =>
          let '(heatmap, next) :=
            Annotations_heatmap commit now renderOptions (ls_next s) in
          let heatmap := with_range heatmap (lineRange (line l)) in
          mkLoop (ls_decorations s ++ [heatmap])
                 (<[sha l := heatmap]> (ls_map s)) next
      end
  end.

Definition loop (blame : GitBlame) (now : Z) (renderOptions : RenderOptions)
    (ls : list GitCommitLine) (s : LoopState) : LoopState :=
  foldl (loop_body blame now renderOptions) s ls.

(** What the method does to its surroundings. *)
Inductive Effect :=
| SetDecorations (ds : list DecorationOptions)   (* this.editor.setDecorations(this.decoration!, ds) *)
| LogDuration (ms : Z)                           (* Logger.log(`${ms} ms to compute heatmap annotations`) *)
| Selection (shaOrLine : option (string + nat)) (blame : GitBlame). (* this.selection(shaOrLine, blame) *)

(** The fields of the provider the method assigns. *)
Record Provider := mkProvider {
  annotationType : option FileAnnotationType;
  decorations : list DecorationOptions }.

(** The outcome of one call: the resolved value, the provider afterwards,
    the effects in order, the pass's [decorationsMap] ([None] when the
    method returned before creating it) and the allocation counter. *)
Record Outcome := mkOutcome {
  result : bool;
  provider : Provider;
  effects : list Effect;
  decorationsMap : option (gmap string DecorationOptions);
  next_oid : nat }.

(** [(duration[0] * 1000) + Math.floor(duration[1] / 1000000)] *)
Definition duration_ms (duration : Z * Z) : Z :=
  (fst duration * 1000 + snd duration / 1000000)%Z.

(** [onProvideAnnotation(shaOrLine, type)]. [getBlame] is the resolved
    value of [this.getBlame()], [now] of [Date.now()], [duration] of
    [process.hrtime(start)]. *)
Definition onProvideAnnotation (getBlame : option GitBlame) (now : Z)
    (duration : Z * Z) (shaOrLine : option (string + nat))
    (type : option FileAnnotationType) (this : Provider) (next : nat) : Outcome :=
  let this := mkProvider (Some Heatmap) (decorations this) in
  match getBlame with
  | None => mkOutcome false this [] None next
  | Some blame =>
      let renderOptions := heatmapRenderOptions in
      let s := loop blame now renderOptions (lines blame) (mkLoop [] ∅ next) in
      let this := mkProvider (annotationType this) (ls_decorations s) in
      let applied :=
        if decide (length (decorations this) = 0) then []
        else [SetDecorations (decorations this)] in
      mkOutcome true this
        (applied ++ [LogDuration (duration_ms duration); Selection shaOrLine blame])
        (Some (ls_map s)) (ls_next s)
  end.

(** The descriptor a pass whose [decorationsMap] ends as [m] has pushed for
    line [l]: the cached descriptor of the line's commit id, with the
    line's own range; none when the id has no cached descriptor. *)
Definition emitted (m : gmap string DecorationOptions) (l : GitCommitLine)
    : option DecorationOptions :=
  d ← m !! sha l; Some (with_range d (lineRange (line l))).

(** [blame.commits.get(l.sha) !== undefined] *)
Definition resolves (blame : GitBlame) (l : GitCommitLine) : Prop :=
  is_Some (commits blame !! sha l).

(** The descriptor [Annotations.heatmap] builds for [commit] as object
    number [n], once its range is bound to line [l]. *)
Definition first_descriptor (now : Z) (renderOptions : RenderOptions)
    (commit : GitBlameCommit) (n : nat) (l : GitCommitLine) : DecorationOptions :=
  mkDecoration (mkPayload n (heatmap_style commit now renderOptions))
               (Some (lineRange (line l))).

(** What holds of the loop's variables after the lines [done], for a pass
    that started with the allocation counter at [next0]. *)
Record loop_inv (blame : GitBlame) (now : Z) (renderOptions : RenderOptions)
    (next0 : nat) (done : list GitCommitLine) (s : LoopState) : Prop := mkInv {
  inv_first : forall k d, ls_map s !! k = Some d ->
    exists c pre l post,
      done = pre ++ l :: post /\ sha l = k /\
      (forall l', l' ∈ pre -> sha l' <> k) /\
      commits blame !! k = Some c /\
      d = first_descriptor now renderOptions c (oid (payload d)) l /\
      next0 <= oid (payload d) < ls_next s;
  inv_inj : forall k1 k2 d1 d2,
    ls_map s !! k1 = Some d1 -> ls_map s !! k2 = Some d2 ->
    oid (payload d1) = oid (payload d2) -> k1 = k2;
  inv_seen : forall l, l ∈ done -> resolves blame l -> is_Some (ls_map s !! sha l);
  inv_decs : ls_decorations s = omap (emitted (ls_map s)) done;
  inv_next : next0 <= ls_next s }.

(** [SetDecorations ds] for some [ds] *)
Definition is_SetDecorations (e : Effect) : bool :=
  match e with
  | SetDecorations _ => true
  | _ => false
  end.

End Provider.

Arguments Payload : clear implicits.
Arguments DecorationOptions : clear implicits.
Arguments GitBlame : clear implicits.
Arguments LoopState : clear implicits.
Arguments Effect : clear implicits.
Arguments Provider : clear implicits.
Arguments Outcome : clear implicits.

(** Sample input: commits are given by their time in milliseconds, a style
    is a colour name, and a commit less than a day old is hot. *)
Definition sample_style (commit : Z) (now : Z) (_ : unit) : string :=
  if (now - commit <? 86400000)%Z then "hot" else "cold".

Definition sample_commits : gmap string Z :=
  <["c1" := 1000%Z]> (<["c2" := 99000000%Z]> ∅).

(** The lines [(0,c1); (1,c1); (2,c2)]. *)
Definition sample_blame : GitBlame Z :=
  mkBlame [mkLine "c1" 0; mkLine "c1" 1; mkLine "c2" 2] sample_commits.

(** The same with a line of a commit [c3] that the map does not have. *)
Definition sample_blame_gap : GitBlame Z :=
  mkBlame [mkLine "c1" 0; mkLine "c3" 1; mkLine "c1" 2] sample_commits.

(** Lines of commits that the map does not have. *)
Definition sample_blame_lost : GitBlame Z :=
  mkBlame [mkLine "c3" 0; mkLine "c4" 1] sample_commits.

Definition sample_provider : Provider string := mkProvider None [].

(** A pass over [blame] that starts a hundred million milliseconds after
    time zero, takes three, and allocates from zero. *)
Definition sample_pass (blame : GitBlame Z) : Outcome Z string :=
  onProvideAnnotation sample_style tt (Some blame) 100000000%Z (0, 3000000)%Z
    None None sample_provider 0.

End Heatmap.

(* ===================================================================== *)
(** ** The explorer: root lifecycle and auto refresh *)
(* ===================================================================== *)

Module Explorer.

(** The enum [GitExplorerView], declared in configuration.ts. *)
Module GitExplorerView.
Inductive t := Auto | History | Repository.
End GitExplorerView.

(** The enum [RefreshReason], declared with the explorer nodes. *)
Module RefreshReason.
Inductive t :=
| ActiveEditorChanged | AutoRefreshChanged | Command
| RepoChanged | ViewChanged | VisibleEditorsChanged.
End RefreshReason.

#[global] Instance GitExplorerView_eq_dec : EqDecision GitExplorerView.t.
Proof. solve_decision. Defined.

#[global] Instance RefreshReason_eq_dec : EqDecision RefreshReason.t.
Proof. solve_decision. Defined.

Definition Uri := string.

Record Repository := mkRepository { path : string }.

#[global] Instance Repository_eq_dec : EqDecision Repository.
Proof. solve_decision. Defined.

(** The node classes the explorer constructs, with the constructor
    arguments that are data. *)
Inductive NodeKind :=
| RepositoryNode (repo : Repository) (active : bool)
| RepositoriesNode (repositories : list Repository)
| HistoryNode (repo : Repository)
| MessageNode (message : string).

#[global] Instance NodeKind_eq_dec : EqDecision NodeKind.
Proof. solve_decision. Defined.

(** A node object: its identity, its [uri] and its class. *)
Record ExplorerNode := mkNode {
  node_id : nat;
  node_uri : option Uri;
  kind : NodeKind }.

(** [TextEditor]: [document] and, when there is one, [document.uri]. *)
Record TextEditor := mkEditor { document : option Uri }.

(** [a === b] on two optional object references. *)
Definition same_object (a b : option ExplorerNode) : bool :=
  bool_decide (node_id <$> a = node_id <$> b).

(** [GlyphChars.Dash], declared in constants.ts. *)
Definition GlyphChars_Dash : string := "—".

(** What the explorer reads from its collaborators during one awaited
    step: the window, the git service and the configuration. *)
Record Env := mkEnv {
  activeTextEditor : option TextEditor;        (* window.activeTextEditor *)
  visibleTextEditors : list TextEditor;        (* window.visibleTextEditors *)
  isTrackable : Uri -> bool;                   (* Container.git.isTrackable *)
  getRepository : Uri -> option Repository;    (* Container.git.getRepository *)
  getRepositories : list Repository;           (* [...await Container.git.getRepositories()] *)
  fromUri : Uri -> Uri;                        (* GitUri.fromUri *)
  fromRepoPath : string -> Uri;                (* GitUri.fromRepoPath *)
  uriEquals : Uri -> option Uri -> bool;       (* UriComparer.equals *)
  nodeChildren : ExplorerNode -> list ExplorerNode; (* getChildren() of the node classes *)
  configView : GitExplorerView.t;                (* configuration.get('gitExplorer.view') *)
  configAutoRefresh : bool }.                  (* configuration.get('gitExplorer.autoRefresh') *)

(** Calls that leave the explorer, in program order. *)
Inductive Event :=
| NewNode (n : nat)                         (* new RepositoryNode / RepositoriesNode / HistoryNode *)
| Dispose (n : nat)                         (* this._root.dispose() *)
| AssignRoot (r : option nat)               (* this._root = ... *)
| DisposeSubscription (d : nat)             (* this._autoRefreshDisposable.dispose() *)
| Subscribe (d : nat)                       (* Container.git.onDidChangeRepositories(...) *)
| FireAutoRefresh                           (* this._onDidChangeAutoRefresh.fire() *)
| FireTreeData (n : option nat)             (* this._onDidChangeTreeData.fire(node) *)
| UpdateAutoRefresh (b : bool)              (* workspaceState.update(GitExplorerAutoRefresh, b) *)
| UpdateView (v : GitExplorerView.t)          (* workspaceState.update(GitExplorerView, v) *)
| ContextAutoRefresh (b : bool)             (* setCommandContext(GitExplorerAutoRefresh, b) *)
| ContextView (v : option GitExplorerView.t)  (* setCommandContext(GitExplorerView, v) *)
| StopWatchingFileSystem                    (* Container.git.stopWatchingFileSystem() *)
| LogRepositoriesChanged                    (* Logger.log(`...onRepositoriesChanged`) *)
| LogRefresh (reason : RefreshReason.t).      (* Logger.log(`...refresh`, `reason='...'`) *)

#[global] Instance Event_eq_dec : EqDecision Event.
Proof. solve_decision. Defined.

(** The explorer's fields, and the state of its collaborators that it
    writes: the workspace store, the listeners of the git service's
    repositories-changed event, the extension's subscription list, and the
    allocation counter of objects. *)
Record GitExplorer := mkExplorer {
  _root : option ExplorerNode;
  _view : option GitExplorerView.t;
  _loading : bool;                              (* this._loading !== undefined *)
  _autoRefreshDisposable : option nat;
  workspaceView : option GitExplorerView.t;       (* workspaceState[GitExplorerView] *)
  workspaceAutoRefresh : option bool;           (* workspaceState[GitExplorerAutoRefresh] *)
  listeners : list nat;
  subscriptions : list nat;                     (* Container.context.subscriptions *)
  next_id : nat }.

(** A method body: it reads and writes the explorer and emits events. *)
Definition M (A : Type) : Type := GitExplorer -> A * GitExplorer * list Event.

Definition ret {A} (a : A) : M A := fun st => (a, st, []).

Definition bind {A B} (m : M A) (f : A -> M B) : M B := fun st =>
  let '(a, st1, e1) := m st in
  let '(b, st2, e2) := f a st1 in
  (b, st2, e1 ++ e2).

#[global] Instance M_ret : MRet M := @ret.
#[global] Instance M_bind : MBind M := fun A B f m => bind m f.

Definition gets {A} (f : GitExplorer -> A) : M A := fun st => (f st, st, []).
Definition modify (f : GitExplorer -> GitExplorer) : M unit := fun st => (tt, f st, []).
Definition emit (e : Event) : M unit := fun st => (tt, st, [e]).
Definition when (b : bool) (m : M unit) : M unit := if b then m else ret tt.

Definition set_root (r : option ExplorerNode) (st : GitExplorer) : GitExplorer :=
  mkExplorer r (_view st) (_loading st) (_autoRefreshDisposable st)
    (workspaceView st) (workspaceAutoRefresh st) (listeners st) (subscriptions st) (next_id st).
Definition set_view (v : option GitExplorerView.t) (st : GitExplorer) : GitExplorer :=
  mkExplorer (_root st) v (_loading st) (_autoRefreshDisposable st)
    (workspaceView st) (workspaceAutoRefresh st) (listeners st) (subscriptions st) (next_id st).
Definition set_loading (b : bool) (st : GitExplorer) : GitExplorer :=
  mkExplorer (_root st) (_view st) b (_autoRefreshDisposable st)
    (workspaceView st) (workspaceAutoRefresh st) (listeners st) (subscriptions st) (next_id st).
Definition set_autoRefreshDisposable (d : option nat) (st : GitExplorer) : GitExplorer :=
  mkExplorer (_root st) (_view st) (_loading st) d
    (workspaceView st) (workspaceAutoRefresh st) (listeners st) (subscriptions st) (next_id st).
Definition set_workspaceView (v : option GitExplorerView.t) (st : GitExplorer) : GitExplorer :=
  mkExplorer (_root st) (_view st) (_loading st) (_autoRefreshDisposable st)
    v (workspaceAutoRefresh st) (listeners st) (subscriptions st) (next_id st).
Definition set_workspaceAutoRefresh (b : option bool) (st : GitExplorer) : GitExplorer :=
  mkExplorer (_root st) (_view st) (_loading st) (_autoRefreshDisposable st)
    (workspaceView st) b (listeners st) (subscriptions st) (next_id st).
Definition set_listeners (l : list nat) (st : GitExplorer) : GitExplorer :=
  mkExplorer (_root st) (_view st) (_loading st) (_autoRefreshDisposable st)
    (workspaceView st) (workspaceAutoRefresh st) l (subscriptions st) (next_id st).
Definition set_subscriptions (l : list nat) (st : GitExplorer) : GitExplorer :=
  mkExplorer (_root st) (_view st) (_loading st) (_autoRefreshDisposable st)
    (workspaceView st) (workspaceAutoRefresh st) (listeners st) l (next_id st).
Definition set_next_id (n : nat) (st : GitExplorer) : GitExplorer :=
  mkExplorer (_root st) (_view st) (_loading st) (_autoRefreshDisposable st)
    (workspaceView st) (workspaceAutoRefresh st) (listeners st) (subscriptions st) n.

(** Allocation of a new object: its identity. *)
Definition fresh : M nat :=
  n ← gets next_id; modify (set_next_id (S n)) ;; ret n.

(** [new C(...)] for a node class that can become the root. *)
Definition new_node (uri : option Uri) (k : NodeKind) : M ExplorerNode :=
  n ← fresh; emit (NewNode n) ;; ret (mkNode n uri k).

(** [clearRoot()] *)
Definition clearRoot : M unit :=
  root ← gets _root;
  match root with
  | None => ret tt
  | Some r =>
      emit (Dispose (node_id r)) ;;
      emit (AssignRoot None) ;;
      modify (set_root None)
  end.

(** [setRoot(root)] *)
Definition setRoot (root : option ExplorerNode) : M bool :=
  cur ← gets _root;
  if same_object cur root then ret false
  else
    match cur with
    | Some r => emit (Dispose (node_id r))
    | None => ret tt
    end ;;
    emit (AssignRoot (node_id <$> root)) ;;
    modify (set_root root) ;;
    ret true.

(** [e.document && Container.git.isTrackable(e.document.uri)] *)
Definition trackable (env : Env) (e : TextEditor) : bool :=
  match document e with
  | Some uri => isTrackable env uri
  | None => false
  end.

(** [getHistoryNode(editor)] *)
Definition getHistoryNode (env : Env) (editor : option TextEditor)
    : M (option ExplorerNode) :=
  match editor with
  | None => ret None
  | Some editor =>
      if bool_decide (length (visibleTextEditors env) = 0)
         || negb (existsb (trackable env) (visibleTextEditors env))
      then ret None
      else
        match document editor with
        | None => gets _root
        | Some docUri =>
            if negb (isTrackable env docUri) then gets _root
            else
              let uri := fromUri env docUri in
              match getRepository env uri with
              | None => ret None
              | Some repo =>
                  root ← gets _root;
                  if uriEquals env uri (root ≫= node_uri) then ret root
                  else n ← new_node (Some uri) (HistoryNode repo); ret (Some n)
              end
        end
  end.

(** [editor || window.activeTextEditor] *)
Definition orActive (env : Env) (editor : option TextEditor) : option TextEditor :=
  match editor with
  | Some e => Some e
  | None => activeTextEditor env
  end.

(** [getRootNode(editor)] *)
Definition getRootNode (env : Env) (editor : option TextEditor)
    : M (option ExplorerNode) :=
  view ← gets _view;
  match view with
  | Some GitExplorerView.History =>
      r ← getHistoryNode env (orActive env editor);
      modify (set_loading true) ;;
      ret r
  | _ =>
      modify (set_loading true) ;;
      match getRepositories env with
      | [] => ret None
      | [repo] =>
          n ← new_node (Some (fromRepoPath env (path repo))) (RepositoryNode repo true);
          ret (Some n)
      | repositories =>
          n ← new_node None (RepositoriesNode repositories); ret (Some n)
      end
  end.

(** [refresh(reason, root)] *)
Definition refresh (env : Env) (reason : option RefreshReason.t)
    (root : option ExplorerNode) : M unit :=
  let reason := default RefreshReason.Command reason in
  emit (LogRefresh reason) ;;
  cur ← gets _root;
  view ← gets _view;
  when (bool_decide (cur = None)
        || (bool_decide (root = None) && bool_decide (view = Some GitExplorerView.History)))
    (clearRoot ;;
     r ← getRootNode env (activeTextEditor env);
     setRoot r ;;
     ret tt) ;;
  emit (FireTreeData None).

(** [setView(view)] *)
Definition setView (env : Env) (view : GitExplorerView.t) : M unit :=
  cur ← gets _view;
  if bool_decide (cur = Some view) then ret tt
  else
    when (bool_decide (configView env = GitExplorerView.Auto))
      (emit (UpdateView view) ;; modify (set_workspaceView (Some view))) ;;
    modify (set_view (Some view)) ;;
    emit (ContextView (Some view)) ;;
    when (bool_decide (view <> GitExplorerView.Repository)) (emit StopWatchingFileSystem).

(** [reset(view, force)]; [env] is what the awaited [getRootNode] sees,
    [env'] what the [refresh] after it sees. *)
Definition reset (env env' : Env) (view : GitExplorerView.t) (force : bool) : M unit :=
  setView env view ;;
  cur ← gets _root;
  when (force && negb (bool_decide (cur = None))) clearRoot ;;
  r ← getRootNode env (activeTextEditor env);
  requiresRefresh ← setRoot r;
  when (requiresRefresh || force) (refresh env' (Some RefreshReason.ViewChanged) None).

(** [switchTo(view)] *)
Definition switchTo (env env' : Env) (view : GitExplorerView.t) : M unit :=
  cur ← gets _view;
  if bool_decide (cur = Some view) then ret tt
  else reset env env' view true.

(** [setAutoRefresh(enabled, workspaceEnabled)]; [env] is what the
    [refresh] at its end sees. *)
Definition setAutoRefresh (env : Env) (enabled : bool)
    (workspaceEnabled : option bool) : M unit :=
  disposable ← gets _autoRefreshDisposable;
  match disposable with
  | Some d =>
      emit (DisposeSubscription d) ;;
      modify (fun st => set_listeners (filter (fun x => x <> d) (listeners st)) st) ;;
      modify (set_autoRefreshDisposable None)
  | None => ret tt
  end ;;
  '(workspaceEnabled, toggled) ←
    (if enabled then
       '(workspaceEnabled, toggled) ←
         match workspaceEnabled with
         | None =>
             stored ← gets workspaceAutoRefresh;
             ret (default true stored, false)
         | Some w =>
             emit (UpdateAutoRefresh w) ;;
             modify (set_workspaceAutoRefresh (Some w)) ;;
             emit FireAutoRefresh ;;
             ret (w, w)
         end;
       when workspaceEnabled
         (d ← fresh;
          emit (Subscribe d) ;;
          modify (fun st => set_listeners (listeners st ++ [d]) st) ;;
          modify (set_autoRefreshDisposable (Some d)) ;;
          modify (fun st => set_subscriptions (subscriptions st ++ [d]) st)) ;;
       ret (Some workspaceEnabled, toggled)
     else ret (workspaceEnabled, false));
  emit (ContextAutoRefresh (enabled && default false workspaceEnabled)) ;;
  when toggled (refresh env (Some RefreshReason.AutoRefreshChanged) None).

(** [new MessageNode(message)] *)
Definition new_message (message : string) : M ExplorerNode :=
  n ← fresh; ret (mkNode n None (MessageNode message)).

(** Modelled from the spec: [node.getChildren()]. The node classes are not
    part of the sources; a message node is a leaf with no children, the
    other classes' children are those the environment gives. *)
Definition node_getChildren (env : Env) (n : ExplorerNode) : list ExplorerNode :=
  match kind n with
  | MessageNode _ => []
  | _ => nodeChildren env n
  end.

(** [getChildren(node)] *)
Definition getChildren (env : Env) (node : option ExplorerNode)
    : M (list ExplorerNode) :=
  loading ← gets _loading;
  when loading (modify (set_loading false)) ;;
  root ← gets _root;
  match root with
  | None =>
      view ← gets _view;
      if bool_decide (view = Some GitExplorerView.History) then
        n ← new_message ("No active file " +:+ GlyphChars_Dash +:+ " no history to show");
        ret [n]
      else
        n ← new_message "No repositories found";
        ret [n]
  | Some root =>
      match node with
      | None => ret (node_getChildren env root)
      | Some node => ret (node_getChildren env node)
      end
  end.

(** [onActiveEditorChanged(editor)] *)
Definition onActiveEditorChanged (env env' : Env) (editor : option TextEditor)
    : M unit :=
  view ← gets _view;
  if negb (bool_decide (view = Some GitExplorerView.History)) then ret tt
  else
    root ← getRootNode env editor;
    changed ← setRoot root;
    if negb changed then ret tt
    else refresh env' (Some RefreshReason.ActiveEditorChanged) root.

(** [onRepositoriesChanged()] *)
Definition onRepositoriesChanged (env : Env) : M unit :=
  view ← gets _view;
  if negb (bool_decide (view = Some GitExplorerView.Repository)) then ret tt
  else
    clearRoot ;;
    emit LogRepositoriesChanged ;;
    refresh env (Some RefreshReason.RepoChanged) None.

(** [onVisibleEditorsChanged(editors)] *)
Definition onVisibleEditorsChanged (env : Env) (editors : list TextEditor)
    : M unit :=
  root ← gets _root;
  view ← gets _view;
  if bool_decide (root = None)
     || negb (bool_decide (view = Some GitExplorerView.History)) then ret tt
  else
    when (bool_decide (length editors = 0) || negb (existsb (trackable env) editors))
      (clearRoot ;;
       refresh env (Some RefreshReason.VisibleEditorsChanged) None).

(** [onConfigurationChanged(e)]: [initializing] is
    [configuration.initializing(e)], the three other flags are
    [configuration.changed(e, ...)] for [gitExplorer],
    [defaultGravatarsStyle] and [gitExplorer.autoRefresh]. *)
Definition onConfigurationChanged (env env' : Env)
    (initializing changedGitExplorer changedGravatars changedAutoRefresh : bool)
    : M unit :=
  if negb initializing && negb changedGitExplorer && negb changedGravatars
  then ret tt
  else
    when (initializing || changedAutoRefresh)
      (setAutoRefresh env (configAutoRefresh env) None) ;;
    view ←
      (if bool_decide (configView env = GitExplorerView.Auto) then
         stored ← gets workspaceView;
         ret (default GitExplorerView.Repository stored)
       else ret (configView env));
    if initializing then
      modify (set_view (Some view)) ;;
      emit (ContextView (Some view)) ;;
      r ← getRootNode env (activeTextEditor env);
      setRoot r ;;
      ret tt
    else reset env env' view false.

(** The explorer as constructed, before [onConfigurationChanged] runs. *)
Definition initial (workspace_view : option GitExplorerView.t)
    (workspace_autoRefresh : option bool) (subs : list nat) (next : nat)
    : GitExplorer :=
  mkExplorer None None false None workspace_view workspace_autoRefresh [] subs next.

(** The operations that read or replace the root. Each stands for one
    call that has run to its end, with what its awaited steps saw. *)
Inductive Op :=
| OpSetRoot (env : Env) (editor : option TextEditor)   (* setRoot(await getRootNode(editor)) *)
| OpClearRoot
| OpRefresh (env : Env) (reason : option RefreshReason.t) (root : option ExplorerNode)
| OpReset (env env' : Env) (view : GitExplorerView.t) (force : bool)
| OpSwitchTo (env env' : Env) (view : GitExplorerView.t)
| OpSetView (env : Env) (view : GitExplorerView.t)
| OpActiveEditorChanged (env env' : Env) (editor : option TextEditor)
| OpRepositoriesChanged (env : Env)
| OpVisibleEditorsChanged (env : Env) (editors : list TextEditor)
| OpConfigurationChanged (env env' : Env) (i g s a : bool)
| OpSetAutoRefresh (env : Env) (enabled : bool) (workspaceEnabled : option bool)
| OpGetChildren (env : Env) (node : option ExplorerNode).

Definition run_op (op : Op) : M unit :=
  match op with
  | OpSetRoot env editor => r ← getRootNode env editor; setRoot r ;; ret tt
  | OpClearRoot => clearRoot
  | OpRefresh env reason root => refresh env reason root
  | OpReset env env' view force => reset env env' view force
  | OpSwitchTo env env' view => switchTo env env' view
  | OpSetView env view => setView env view
  | OpActiveEditorChanged env env' editor => onActiveEditorChanged env env' editor
  | OpRepositoriesChanged env => onRepositoriesChanged env
  | OpVisibleEditorsChanged env editors => onVisibleEditorsChanged env editors
  | OpConfigurationChanged env env' i g s a => onConfigurationChanged env env' i g s a
  | OpSetAutoRefresh env enabled w => setAutoRefresh env enabled w
  | OpGetChildren env node => getChildren env node ;; ret tt
  end.

Fixpoint run_ops (ops : list Op) : M unit :=
  match ops with
  | [] => ret tt
  | op :: ops => run_op op ;; run_ops ops
  end.

(** *** The discipline of the root, read off the events *)

(** The ids of the nodes constructed, and of those disposed, in order. *)
Definition created (tr : list Event) : list nat :=
  omap (fun e => match e with NewNode n => Some n | _ => None end) tr.

Definition disposed (tr : list Event) : list nat :=
  omap (fun e => match e with Dispose n => Some n | _ => None end) tr.

(** Where the root stands: [this._root] holds [cur], or the node [n] it
    held has just been disposed and the field is about to be assigned. *)
Inductive Phase :=
| Held (cur : option nat)
| Released (n : nat).

(** One event seen by an observer of the root. A node is disposed only
    while it is the root; the very next event then assigns the field to
    something else; and the field is assigned without a disposal only while
    it is empty. [None] is a breach. *)
Definition monitor_step (ph : Phase) (e : Event) : option Phase :=
  match ph, e with
  | Held cur, Dispose n => if decide (cur = Some n) then Some (Released n) else None
  | Held cur, AssignRoot r => if decide (cur = None) then Some (Held r) else None
  | Held cur, _ => Some (Held cur)
  | Released n, AssignRoot r => if decide (r <> Some n) then Some (Held r) else None
  | Released n, _ => None
  end.

Fixpoint monitor (ph : Phase) (tr : list Event) : option Phase :=
  match tr with
  | [] => Some ph
  | e :: tr => ph' ← monitor_step ph e; monitor ph' tr
  end.

(** What holds between two steps: [root] is the id of [this._root], [next]
    the allocation counter, [tr] the events so far, and [pend] a node that
    [getRootNode] has constructed and [setRoot] has not yet received. *)
Record lifecycle (pend root : option nat) (next : nat) (tr : list Event) : Prop :=
  mkLifecycle {
  lc_monitor : monitor (Held None) tr = Some (Held root);
  lc_nodup : NoDup (disposed tr);
  lc_bound : forall n, n ∈ created tr -> n < next;
  lc_disposed : forall n, n ∈ disposed tr -> n ∈ created tr;
  lc_live : forall n, n ∈ created tr -> n ∉ disposed tr -> root = Some n \/ pend = Some n;
  lc_root : forall n, root = Some n -> n ∈ created tr /\ (n ∉ disposed tr);
  lc_pend : forall n, pend = Some n ->
    n ∈ created tr /\ (n ∉ disposed tr) /\ root <> Some n }.

(** The invariant of the explorer between two calls. *)
Definition root_inv (st : GitExplorer) (tr : list Event) : Prop :=
  lifecycle None (node_id <$> _root st) (next_id st) tr.

(** What holds of the value [r] of [getRootNode] before [setRoot] takes it:
    it is nothing, or the root itself, or a node just constructed. *)
Definition candidate_inv (r : option ExplorerNode) (st : GitExplorer)
    (tr : list Event) : Prop :=
  ((r = None \/ r = _root st) /\ root_inv st tr) \/
  (exists node, r = Some node /\
     lifecycle (Some (node_id node)) (node_id <$> _root st) (next_id st) tr).

(** A method body keeps [I], a property of the explorer and of the events
    so far. *)
Definition stable (I : GitExplorer -> list Event -> Prop) {A} (m : M A) : Prop :=
  forall st tr, I st tr ->
  forall a st' ev, m st = (a, st', ev) -> I st' (tr ++ ev).

(** A method body takes [P] to [Q]. *)
Definition hoare (P : GitExplorer -> list Event -> Prop) {A} (m : M A)
    (Q : A -> GitExplorer -> list Event -> Prop) : Prop :=
  forall st tr, P st tr ->
  forall a st' ev, m st = (a, st', ev) -> Q a st' (tr ++ ev).

(** Events about the root and the tree, the only ones [refresh] emits. *)
Definition root_event (e : Event) : bool :=
  match e with
  | NewNode _ | Dispose _ | AssignRoot _ | FireTreeData _ | LogRefresh _ => true
  | _ => false
  end.

(** Events that neither construct, dispose nor assign a root. *)
Definition neutral (e : Event) : bool :=
  match e with
  | NewNode _ | Dispose _ | AssignRoot _ => false
  | _ => true
  end.

(** The fields [refresh] leaves alone. *)
Definition aux (st : GitExplorer) :=
  (_view st, _autoRefreshDisposable st, workspaceView st,
   workspaceAutoRefresh st, listeners st, subscriptions st).

(** The other fields are [a], and only root and tree events were emitted. *)
Definition framed (a : _) (st : GitExplorer) (tr : list Event) : Prop :=
  aux st = a /\ Forall root_event tr.

(** What releasing the subscription does. *)
Definition released (st : GitExplorer) : GitExplorer :=
  match _autoRefreshDisposable st with
  | Some d => set_autoRefreshDisposable None
                (set_listeners (filter (fun x => x <> d) (listeners st)) st)
  | None => st
  end.

Definition released_events (st : GitExplorer) : list Event :=
  match _autoRefreshDisposable st with
  | Some d => [DisposeSubscription d]
  | None => []
  end.

(** What subscribing to the repositories-changed event does. *)
Definition subscribed (st : GitExplorer) : GitExplorer :=
  set_subscriptions (subscriptions st ++ [next_id st])
    (set_autoRefreshDisposable (Some (next_id st))
       (set_listeners (listeners st ++ [next_id st])
          (set_next_id (S (next_id st)) st))).

(** A window with no editor and a git service with no repository. *)
Definition empty_env : Env :=
  mkEnv None [] (fun _ => false) (fun _ => None) [] (fun u => u) (fun p => p)
    (fun _ _ => false) (fun _ => []) GitExplorerView.Repository true.

(** Sample input: a git service with one repository, with two, and a
    window whose active editor shows a tracked file. *)
Definition one_repo_env : Env :=
  mkEnv None [] (fun _ => false) (fun _ => None) [mkRepository "/work/app"]
    (fun u => u) (fun p => p) (fun _ _ => false) (fun _ => [])
    GitExplorerView.Repository true.


Definition history_env (file : string) : Env :=
  mkEnv (Some (mkEditor (Some file))) [mkEditor (Some file)] (fun _ => true)
    (fun _ => Some (mkRepository "/work/app")) [mkRepository "/work/app"]
    (fun u => u) (fun p => p)
    (fun u o => match o with Some u' => bool_decide (u = u') | None => false end)
    (fun _ => []) GitExplorerView.Repository true.


(** *** The rest of the explorer's surface *)

(** [get autoRefresh()] *)
Definition autoRefresh (env : Env) (st : GitExplorer) : bool :=
  configAutoRefresh env && default true (workspaceAutoRefresh st).

(** The handlers the constructor registers for
    [gitlens.gitExplorer.setAutoRefreshToOn] and [...ToOff]. *)
Definition setAutoRefreshToOn (env : Env) : M unit :=
  setAutoRefresh env (configAutoRefresh env) (Some true).

Definition setAutoRefreshToOff (env : Env) : M unit :=
  setAutoRefresh env (configAutoRefresh env) (Some false).

(** The handlers for [gitlens.gitExplorer.switchToHistoryView] and
    [...switchToRepositoryView]. *)
Definition switchToHistoryView (env env' : Env) : M unit :=
  switchTo env env' GitExplorerView.History.

Definition switchToRepositoryView (env env' : Env) : M unit :=
  switchTo env env' GitExplorerView.Repository.

(** The other fields are [a] and the allocation counter is at least [n],
    whatever was emitted. *)
Definition kept (a : _) (n : nat) (st : GitExplorer) (tr : list Event) : Prop :=
  aux st = a /\ n <= next_id st.

(** The root, if there is one, was constructed at or after [n0]. *)
Definition root_since (n0 : nat) (st : GitExplorer) (tr : list Event) : Prop :=
  (forall r, _root st = Some r -> n0 <= node_id r) /\ n0 <= next_id st.

(** The same for the value of [getRootNode] that [setRoot] is about to take. *)
Definition candidate_since (n0 : nat) (r : option ExplorerNode)
    (st : GitExplorer) (tr : list Event) : Prop :=
  root_since n0 st tr /\ (forall x, r = Some x -> n0 <= node_id x).

(** The listeners of the repositories-changed event are the subscription
    the explorer holds, which is also in the extension's list and was
    allocated. *)
Definition one_listener (st : GitExplorer) (tr : list Event) : Prop :=
  listeners st = match _autoRefreshDisposable st with
                 | Some d => [d]
                 | None => []
                 end /\
  (forall d, _autoRefreshDisposable st = Some d ->
     d ∈ subscriptions st /\ d < next_id st).

(** No visible editor shows a tracked document. *)
Definition nothing_trackable (env : Env) : Prop :=
  existsb (trackable env) (visibleTextEditors env) = false.

(** Sample input: a configuration whose view is [Auto], and an explorer
    that shows the history of a file. *)
Definition auto_env : Env :=
  mkEnv None [] (fun _ => false) (fun _ => None) [mkRepository "/work/app"]
    (fun u => u) (fun p => p) (fun _ _ => false) (fun _ => [])
    GitExplorerView.Auto true.

Definition history_state : GitExplorer :=
  mkExplorer (Some (mkNode 0 (Some "a.ts") (HistoryNode (mkRepository "/work/app"))))
    (Some GitExplorerView.History) false None None None [] [] 1.

(** An explorer in the history view over a workspace store that holds the
    repository view, as when the view was chosen while the configured view
    was not [Auto]. *)
Definition stale_state : GitExplorer :=
  mkExplorer None (Some GitExplorerView.History) false None
    (Some GitExplorerView.Repository) None [] [] 0.

End Explorer.

(* ===================================================================== *)
(** ** The line blame commands *)
(* ===================================================================== *)

Module Commands.

Section Execute.

(** [LineAnnotationType] (configuration.ts), the values thrown, the value
    the annotation controller's promise is fulfilled with, and
    [TextEditor]. *)
Context {LineAnnotationType Exception Value TextEditor : Type}.

(** How the evaluation of a call ends. *)
Inductive Completion (A : Type) :=
| Returns (a : A)
| Throws (ex : Exception).

(** The settled state of a promise. A value that is no promise counts as
    a promise fulfilled with it, as [return] in an async function and
    [await] treat it. *)
Inductive Promise (A : Type) :=
| Fulfilled (a : A)
| Rejected (ex : Exception).

#[global] Arguments Returns {A} a.
#[global] Arguments Throws {A} ex.
#[global] Arguments Fulfilled {A} a.
#[global] Arguments Rejected {A} ex.

(** What the promise of [execute] is fulfilled with: the controller's
    value, or what [window.showErrorMessage(message)] gives. *)
Inductive ExecuteValue :=
| FromController (v : Value)
| ErrorMessageShown (message : string).

Inductive Effect :=
| ConfigurationGet                                   (* configuration.get(...annotationType...) *)
| ControllerCall (editor : option TextEditor) (type : LineAnnotationType)
| LoggerError (ex : Exception) (classname : string)  (* Logger.error(ex, classname) *)
| ShowErrorMessage (message : string).               (* window.showErrorMessage(message) *)

(** A call of the controller *)
Definition is_ControllerCall (e : Effect) : bool :=
  match e with
  | ControllerCall _ _ => true
  | _ => false
  end.

(** The collaborators: [configuration.get] of the line annotation type,
    and the controller method the command calls
    ([Container.lineAnnotations.showAnnotations] or [.toggleAnnotations]). *)
Variable configuration_get : Completion LineAnnotationType.
Variable controller : option TextEditor -> LineAnnotationType -> Completion (Promise Value).

(** The [try] block: the default for [args.type], then the call whose
    value is returned. *)
Definition try_block (editor : option TextEditor) (args_type : option LineAnnotationType)
    : Completion (Promise Value) * list Effect :=
  match args_type with
  | Some type => (controller editor type, [ControllerCall editor type])
  | None =>
      match configuration_get with
      | Throws ex => (Throws ex, [ConfigurationGet])
      | Returns type =>
          (controller editor type, [ConfigurationGet; ControllerCall editor type])
      end
  end.

(** The body of [execute]: [try { ...; return call } catch (ex) { ... }]
    in an async function. The returned promise is not awaited inside the
    [try] block: the promise of [execute] takes its state, and [catch] sees
    only what is thrown while the block is evaluated. *)
Definition execute (classname message : string) (editor : option TextEditor)
    (args_type : option LineAnnotationType) : Promise ExecuteValue * list Effect :=
  match try_block editor args_type with
  | (Returns (Fulfilled v), effects) => (Fulfilled (FromController v), effects)
  | (Returns (Rejected ex), effects) => (Rejected ex, effects)
  | (Throws ex, effects) =>
      (Fulfilled (ErrorMessageShown message),
       effects ++ [LoggerError ex classname; ShowErrorMessage message])
  end.

(** [ShowLineBlameCommand.execute(editor, uri, args)] *)
Definition ShowLineBlameCommand_execute :=
  execute "ShowLineBlameCommand"
    "Unable to show line blame annotations. See output channel for more details".

(** [ToggleLineBlameCommand.execute(editor, uri, args)] *)
Definition ToggleLineBlameCommand_execute :=
  execute "ToggleLineBlameCommand"
    "Unable to toggle line blame annotations. See output channel for more details".

End Execute.

(** Sample input: annotation types are named, exceptions are messages, and
    the controller is an async method whose body throws, so its promise is
    rejected. *)
Definition failing_controller (editor : option nat) (type : string)
    : Completion (Exception := string) (Promise (Exception := string) bool) :=
  Returns (Rejected "blame failed").

(** A controller that throws before it returns. *)
Definition throwing_controller (editor : option nat) (type : string)
    : Completion (Exception := string) (Promise (Exception := string) bool) :=
  Throws "no editor".

End Commands.

(* ===================================================================== *)
(** ** Function helpers (system/function.ts) *)
(* ===================================================================== *)

Module Functions.

Section Seeded.

(** The value type, the arguments of one call, and what a call gives back
    (the promise, or the exception [fn] throws). *)
Context {T Args R : Type}.

(** The wrapped function, and [Promise.resolve]. *)
Variable fn : Args -> R.
Variable resolve : T -> R.

(** [seeded(fn, seed)]: the variable [cached] of the closure it returns.
    [None] is [undefined]. *)
Definition seeded (seed : option T) : option T := seed.

(** One call of the closure with [cached] as it stands: what it returns,
    [cached] afterwards, and the calls of [fn] it made. *)
Definition seeded_call (cached : option T) (args : Args)
    : R * option T * list Args :=
  match cached with
  | Some v => (resolve v, None, [])
  | None => (fn args, cached, [args])
  end.

(** Calls in a row: the results, [cached] at the end, and the calls of
    [fn], both in order. *)
Fixpoint seeded_calls (cached : option T) (calls : list Args)
    : list R * option T * list Args :=
  match calls with
  | [] => ([], cached, [])
  | args :: calls =>
      let '(r, cached, made) := seeded_call cached args in
      let '(rs, cached, made') := seeded_calls cached calls in
      (r :: rs, cached, made ++ made')
  end.

End Seeded.

Section PropOf.

(** JavaScript values. *)
Context {V : Type}.

(** [o] is [undefined] or [null], where [o[key]] throws a TypeError; and
    [o[key]] where it does not. *)
Variable nullish : V -> bool.
Variable get : V -> string -> V.

(** The function [fn] that [propOfCore] returns: the [o] and [key] it has
    captured, and its property [value]. *)
Record Accessor := mkAccessor {
  acc_o : V;
  acc_key : string;
  acc_value : string }.

(** [propOfCore(o, key)], with [cur] the property [value] of [propOfCore]
    itself ([None] is [undefined]); it gives the function and the new
    [propOfCore.value]. *)
Definition propOfCore (cur : option string) (o : V) (key : string)
    : Accessor * option string :=
  let value := match cur with
               | None => key
               | Some v => v +:+ "." +:+ key
               end in
  (mkAccessor o key value, Some value).

(** [propOf(o, key)]: a new [propOfCore], called once. *)
Definition propOf (o : V) (key : string) : Accessor * option string :=
  propOfCore None o key.

(** [fn(k)], that is [propOfCore(o[key], k)]; [None] is the TypeError of
    [o[key]]. *)
Definition call (fn : Accessor) (k : string) (cur : option string)
    : option (Accessor * option string) :=
  if nullish (acc_o fn) then None
  else Some (propOfCore cur (get (acc_o fn) (acc_key fn)) k).

(** [fn(k1)(k2)...(kn)] *)
Fixpoint chain (fn : Accessor) (cur : option string) (ks : list string)
    : option (Accessor * option string) :=
  match ks with
  | [] => Some (fn, cur)
  | k :: ks => '(fn', cur') ← call fn k cur; chain fn' cur' ks
  end.

(** Calls in a row, each of one of the functions this [propOfCore] has
    returned and a key, both of the caller's choice: the functions returned,
    in order, and [propOfCore.value] at the end. *)
Fixpoint calls (cur : option string) (steps : list (Accessor * string))
    : option (list Accessor * option string) :=
  match steps with
  | [] => Some ([], cur)
  | (fn, k) :: steps =>
      '(fn', cur') ← call fn k cur;
      '(fns, cur'') ← calls cur' steps;
      Some (fn' :: fns, cur'')
  end.

(** [o[k1][k2]...[kn]] *)
Definition walk (o : V) (ks : list string) : V := foldl get o ks.

(** The template [`${value}.${key}`] *)
Definition dotted (value key : string) : string := value +:+ "." +:+ key.

End PropOf.

Arguments Accessor : clear implicits.

(** Sample input: an object is the depth to which it is nested, and
    [undefined] is the depth 0. *)
Definition sample_nullish (o : nat) : bool := bool_decide (o = 0).
Definition sample_get (o : nat) (key : string) : nat := pred o.

End Functions.

(* ===================================================================== *)
(** ** Facts about the heatmap blame annotation provider *)
(* ===================================================================== *)

Module HeatmapFacts.

Import Heatmap.

(** [H : x ∈ [a; b; ...]] where [x] differs from each by its constructor. *)
Ltac not_among H :=
  repeat (apply elem_of_cons in H as [H|H]; [discriminate H|]);
  apply elem_of_nil in H.

Section Loop.

Context {GitBlameCommit RenderOptions Style : Type}.
Variable heatmap_style : GitBlameCommit -> Z -> RenderOptions -> Style.
Variable heatmapRenderOptions : RenderOptions.
Variable blame : GitBlame GitBlameCommit.
Variable now : Z.
Variable renderOptions : RenderOptions.

Local Abbreviation body := (loop_body heatmap_style blame now renderOptions).
Local Abbreviation run := (loop heatmap_style blame now renderOptions).
Local Abbreviation Inv := (loop_inv heatmap_style blame now renderOptions).
Local Abbreviation first := (first_descriptor heatmap_style now renderOptions).

(** The three ways through the loop body. *)
Lemma body_hit s l d :
  ls_map s !! sha l = Some d ->
  body s l = mkLoop (ls_decorations s ++ [with_range d (lineRange (line l))])
                    (ls_map s) (ls_next s).
Proof. intros H. unfold loop_body. by rewrite H. Qed.

Lemma body_skip s l :
  ls_map s !! sha l = None -> commits blame !! sha l = None -> body s l = s.
Proof. intros H1 H2. unfold loop_body. by rewrite H1, H2. Qed.

Lemma body_fresh s l c :
  ls_map s !! sha l = None -> commits blame !! sha l = Some c ->
  body s l = mkLoop (ls_decorations s ++ [first c (ls_next s) l])
                    (<[sha l := first c (ls_next s) l]> (ls_map s))
                    (S (ls_next s)).
Proof. intros H1 H2. unfold loop_body. by rewrite H1, H2. Qed.

Lemma omap_agree {A B} (f g : A -> option B) (l : list A) :
  (forall x, x ∈ l -> f x = g x) -> omap f l = omap g l.
Proof.
  induction l as [|a l IH]; intros H; csimpl; [done|].
  rewrite (H a) by left.
  rewrite IH; [done|]. intros x Hx. apply H. by right.
Qed.

Lemma emitted_hit (m : gmap string (DecorationOptions Style)) l d :
  m !! sha l = Some d -> emitted m l = Some (with_range d (lineRange (line l))).
Proof. intros H. unfold emitted. by rewrite H. Qed.

Lemma emitted_miss (m : gmap string (DecorationOptions Style)) l :
  m !! sha l = None -> emitted m l = None.
Proof. intros H. unfold emitted. by rewrite H. Qed.

Lemma inv_start next : Inv next [] (mkLoop [] ∅ next).
Proof.
  split; simpl; try done.
  intros l H. by apply elem_of_nil in H.
Qed.

(** A cached id resolves. *)
Lemma inv_cached_resolves next0 done s l :
  Inv next0 done s -> is_Some (ls_map s !! sha l) -> resolves blame l.
Proof.
  intros HI [d Hd]. destruct (inv_first _ _ _ _ _ _ _ HI _ _ Hd)
    as (c & pre & l0 & post & _ & _ & _ & Hc & _). by exists c.
Qed.

(** One iteration keeps the invariant. *)
Lemma inv_step next0 done s l :
  Inv next0 done s -> Inv next0 (done ++ [l]) (body s l).
Proof.
  intros HI. destruct HI as [Hfirst Hinj Hseen Hdecs Hnext].
  destruct (ls_map s !! sha l) as [d|] eqn:Hm.
  - (* the id is cached *)
    rewrite (body_hit _ _ _ Hm). split; simpl.
    + intros k d0 Hk. destruct (Hfirst _ _ Hk) as (c & pre & l0 & post & -> & Hr).
      exists c, pre, l0, (post ++ [l]). split; [by rewrite <- app_assoc|done].
    + done.
    + intros l' [Hl'| ->%list_elem_of_singleton]%elem_of_app Hres; eauto.
    + rewrite omap_app, Hdecs. simpl. by rewrite (emitted_hit _ _ _ Hm).
    + done.
  - destruct (commits blame !! sha l) as [c|] eqn:Hc.
    + (* first line of a commit that resolves *)
      rewrite (body_fresh _ _ _ Hm Hc).
      assert (Hnew : forall l', l' ∈ done -> sha l' <> sha l).
      { intros l' Hl' Heq. destruct (Hseen l' Hl') as [d' Hd'].
        - unfold resolves. rewrite Heq, Hc. eauto.
        - rewrite Heq in Hd'. congruence. }
      split; simpl.
      * intros k d0. rewrite lookup_insert. case_decide as Hk.
        -- intros [= <-]. subst k. exists c, done, l, []. simpl. repeat split; eauto; lia.
        -- intros Hd0. destruct (Hfirst _ _ Hd0) as (c' & pre & l0 & post & -> & Hr).
           exists c', pre, l0, (post ++ [l]). split; [by rewrite <- app_assoc|].
           destruct Hr as (? & ? & ? & ? & ?). repeat split; eauto; lia.
      * intros k1 k2 d1 d2. rewrite !lookup_insert.
        repeat case_decide; subst; try congruence.
        -- intros [= <-] H2 Ho. simpl in Ho.
           destruct (Hfirst _ _ H2) as (? & ? & ? & ? & _ & _ & _ & _ & _ & ?). lia.
        -- intros H1 [= <-] Ho. simpl in Ho.
           destruct (Hfirst _ _ H1) as (? & ? & ? & ? & _ & _ & _ & _ & _ & ?). lia.
        -- eauto.
      * intros l' [Hl'| ->%list_elem_of_singleton]%elem_of_app Hres.
        -- rewrite lookup_insert_ne by (apply not_eq_sym; eauto). eauto.
        -- rewrite lookup_insert_eq. eauto.
      * rewrite omap_app, Hdecs. simpl. f_equal.
        -- apply omap_agree. intros x Hx. unfold emitted.
           rewrite lookup_insert_ne by (apply not_eq_sym; eauto). done.
        -- unfold emitted. rewrite lookup_insert_eq. done.
      * lia.
    + (* the commit is missing *)
      rewrite (body_skip _ _ Hm Hc). split; simpl.
      * intros k d0 Hk. destruct (Hfirst _ _ Hk) as (c & pre & l0 & post & -> & Hr).
        exists c, pre, l0, (post ++ [l]). split; [by rewrite <- app_assoc|done].
      * done.
      * intros l' [Hl'| ->%list_elem_of_singleton]%elem_of_app Hres; eauto.
        destruct Hres as [c' Hc']. congruence.
      * rewrite omap_app, Hdecs. simpl. rewrite (emitted_miss _ _ Hm). by rewrite app_nil_r.
      * done.
Qed.

Lemma inv_run next0 ls : forall done s,
  Inv next0 done s -> Inv next0 (done ++ ls) (run ls s).
Proof.
  induction ls as [|l ls IH]; intros done s HI; simpl.
  - by rewrite app_nil_r.
  - rewrite (cons_middle l done ls), app_assoc. apply IH. by apply inv_step.
Qed.

(** The invariant at the end of a pass. *)
Lemma inv_pass next :
  Inv next (lines blame) (run (lines blame) (mkLoop [] ∅ next)).
Proof. apply (inv_run next (lines blame) [] _ (inv_start next)). Qed.

End Loop.

Section Claims.

Context {GitBlameCommit RenderOptions Style : Type}.
Variable heatmap_style : GitBlameCommit -> Z -> RenderOptions -> Style.
Variable heatmapRenderOptions : RenderOptions.

Local Abbreviation pass blame now next :=
  (loop heatmap_style blame now heatmapRenderOptions (lines blame) (mkLoop [] ∅ next)).

(** The loop reads the blame only through its commit map. *)
Lemma loop_same_commits (b1 b2 : GitBlame GitBlameCommit) now ro ls : forall s,
  commits b1 = commits b2 ->
  loop heatmap_style b1 now ro ls s = loop heatmap_style b2 now ro ls s.
Proof.
  induction ls as [|l ls IH]; intros s H; [done|]. simpl.
  rewrite <- (IH _ H). f_equal. unfold loop_body. by rewrite H.
Qed.

(** A line whose commit is missing leaves the loop's variables as they are. *)
Lemma loop_skip_missing (blame : GitBlame GitBlameCommit) now ro next l1 x l2 :
  commits blame !! sha x = None ->
  loop heatmap_style blame now ro (l1 ++ x :: l2) (mkLoop [] ∅ next)
  = loop heatmap_style blame now ro (l1 ++ l2) (mkLoop [] ∅ next).
Proof.
  intros Hx. unfold loop. rewrite !foldl_app. simpl. f_equal.
  apply body_skip; [|done].
  destruct (ls_map _ !! sha x) eqn:Hm; [|done].
  pose proof (inv_run heatmap_style blame now ro next l1 [] _
                (inv_start heatmap_style blame now ro next)) as HI.
  simpl in HI. unfold loop in HI.
  destruct (inv_cached_resolves _ _ _ _ _ _ _ x HI) as [c Hc]; [eauto|congruence].
Qed.

(** A pass in which no commit resolves leaves the loop's variables as they
    started. *)
Lemma loop_all_missing (blame : GitBlame GitBlameCommit) now ro next ls :
  Forall (fun l => commits blame !! sha l = None) ls ->
  loop heatmap_style blame now ro ls (mkLoop [] ∅ next) = mkLoop [] ∅ next.
Proof.
  induction 1 as [|l ls Hl _ IH]; [done|]. simpl.
  rewrite body_skip; [done|apply lookup_empty|done].
Qed.

Lemma provide_some (blame : GitBlame GitBlameCommit) now duration shaOrLine
    type this next :
  let s := pass blame now next in
  onProvideAnnotation heatmap_style heatmapRenderOptions (Some blame)
    now duration shaOrLine type this next
  = mkOutcome true (mkProvider (Some Heatmap) (ls_decorations s))
      ((if decide (length (ls_decorations s) = 0) then []
        else [SetDecorations (ls_decorations s)])
       ++ [LogDuration (duration_ms duration); Selection shaOrLine blame])
      (Some (ls_map s)) (ls_next s).
Proof. reflexivity. Qed.

Lemma omap_filter_fmap {A B C} (f : A -> option B) (P : A -> Prop)
    {Pdec : forall x, Decision (P x)} (g : B -> C) (h : A -> C) (l : list A) :
  (forall x, x ∈ l -> (is_Some (f x) <-> P x)) ->
  (forall x y, x ∈ l -> f x = Some y -> g y = h x) ->
  g <$> omap f l = h <$> filter P l.
Proof.
  induction l as [|a l IH]; intros Hiff Hg; [done|].
  assert (IH' : g <$> omap f l = h <$> filter P l).
  { apply IH; intros x; intros; [apply Hiff|eapply Hg]; eauto; by right. }
  csimpl. rewrite filter_cons.
  destruct (f a) as [y|] eqn:Hfa.
  - destruct (decide (P a)) as [|n].
    + csimpl. rewrite IH'. f_equal. eapply Hg; [left|done].
    + exfalso. apply n, Hiff; [left|eauto].
  - destruct (decide (P a)) as [p|]; [|done].
    apply Hiff in p; [|left]. rewrite Hfa in p. by destruct p.
Qed.

Lemma filter_length_all {A} (P : A -> Prop) {Pdec : forall x, Decision (P x)} (l : list A) :
  length (filter P l) = length l <-> Forall P l.
Proof.
  induction l as [|a l IH]; [by split; auto|].
  rewrite filter_cons. destruct (decide (P a)) as [p|n]; simpl.
  - split.
    + intros [= H]. constructor; [done|by apply IH].
    + intros [_ H]%Forall_cons. f_equal. by apply IH.
  - pose proof (length_filter P l). split; [lia|].
    by intros [? _]%Forall_cons.
Qed.


(** C1. Within one pass, every descriptor pushed for a line is the cached
    descriptor of that line's commit id with the line's own range, so the
    descriptors of two lines with the same id have the same style object and
    differ only in [range]. The cached descriptor of an id is the one built
    fresh by [Annotations.heatmap] at the first line carrying the id, and
    different ids never share a style object. For the lines
    [(0,c1); (1,c1); (2,c2)] with both commits in the map, three descriptors
    are pushed: the first two share their style, the third has another one,
    and the ranges are the single lines: from line 0 to line 0, from 1 to 1
    and from 2 to 2, each at character 0. *)
Theorem heatmap_same_commit_shares_style
    (blame : GitBlame GitBlameCommit) now duration shaOrLine type this next :
  let out := onProvideAnnotation heatmap_style heatmapRenderOptions (Some blame)
               now duration shaOrLine type this next in
  exists cache,
    decorationsMap out = Some cache /\
    decorations (provider out) = omap (emitted cache) (lines blame) /\
    (forall l1 l2 d1 d2, sha l1 = sha l2 ->
       emitted cache l1 = Some d1 -> emitted cache l2 = Some d2 ->
       payload d1 = payload d2 /\
       range d1 = Some (mkRange (line l1) 0 (line l1) 0) /\
       range d2 = Some (mkRange (line l2) 0 (line l2) 0)) /\
    (forall l, l ∈ lines blame -> (is_Some (cache !! sha l) <-> resolves blame l)) /\
    (forall k d, cache !! k = Some d ->
       exists c pre l post,
         lines blame = pre ++ l :: post /\ sha l = k /\
         (forall l', l' ∈ pre -> sha l' <> k) /\
         commits blame !! k = Some c /\
         d = first_descriptor heatmap_style now heatmapRenderOptions c (oid (payload d)) l /\
         next <= oid (payload d) < next_oid out) /\
    (forall k1 k2 d1 d2, cache !! k1 = Some d1 -> cache !! k2 = Some d2 ->
       k1 <> k2 -> payload d1 <> payload d2) /\
    (forall c1 c2,
       lines blame = [mkLine "c1" 0; mkLine "c1" 1; mkLine "c2" 2] ->
       commits blame !! "c1" = Some c1 -> commits blame !! "c2" = Some c2 ->
       exists p1 p2,
         decorations (provider out)
         = [mkDecoration p1 (Some (mkRange 0 0 0 0));
            mkDecoration p1 (Some (mkRange 1 0 1 0));
            mkDecoration p2 (Some (mkRange 2 0 2 0))] /\
         p1 <> p2 /\
         p1 = mkPayload next (heatmap_style c1 now heatmapRenderOptions) /\
         p2 = mkPayload (S next) (heatmap_style c2 now heatmapRenderOptions)).
Proof.
  intros out. subst out. rewrite provide_some. cbn zeta.
  pose proof (inv_pass heatmap_style blame now heatmapRenderOptions next) as HI.
  set (s := pass blame now next) in *.
  destruct HI as [Hfirst Hinj Hseen Hdecs Hnext].
  exists (ls_map s). simpl. split; [done|]. split; [done|]. split.
  { intros l1 l2 d1 d2 Hsha. unfold emitted. rewrite Hsha.
    destruct (ls_map s !! sha l2) as [d|]; [|done]. simpl.
    by intros [= <-] [= <-]. }
  repeat split.
  - intros Hc. destruct Hc as [d Hd].
    destruct (Hfirst _ _ Hd) as (c & _ & _ & _ & _ & _ & _ & Hc & _). by exists c.
  - by apply Hseen.
  - done.
  - intros k1 k2 d1 d2 H1 H2 Hne Heq. apply Hne. eapply Hinj; eauto. by rewrite Heq.
  - intros c1 c2 Hl H1 H2. subst s. rewrite Hl. unfold loop. cbn [foldl].
    rewrite (body_fresh _ _ _ _ (mkLoop [] ∅ next) (mkLine "c1" 0) c1) by done.
    erewrite (body_hit _ _ _ _ _ (mkLine "c1" 1)) by apply lookup_insert_eq.
    rewrite (body_fresh _ _ _ _ _ (mkLine "c2" 2) c2) by (simpl; by rewrite ?lookup_insert_ne).
    simpl. eexists _, _. repeat split. intros [= Hbad]. lia.
Qed.

(** C5. A line whose commit id is missing from the commit map is passed
    over: the loop's variables after it are those before it, the call still
    resolves to [true], and the descriptors, the cache, the allocation
    counter and the decorations handed to the editor are exactly those of the
    pass over the same blame without that line. *)
Theorem heatmap_missing_commit_skipped
    (blame : GitBlame GitBlameCommit) l1 x l2 now duration shaOrLine type this next :
  lines blame = l1 ++ x :: l2 ->
  commits blame !! sha x = None ->
  let out := onProvideAnnotation heatmap_style heatmapRenderOptions (Some blame)
               now duration shaOrLine type this next in
  let out' := onProvideAnnotation heatmap_style heatmapRenderOptions
                (Some (mkBlame (l1 ++ l2) (commits blame)))
                now duration shaOrLine type this next in
  loop heatmap_style blame now heatmapRenderOptions (l1 ++ [x]) (mkLoop [] ∅ next)
  = loop heatmap_style blame now heatmapRenderOptions l1 (mkLoop [] ∅ next) /\
  result out = true /\
  decorations (provider out) = decorations (provider out') /\
  decorationsMap out = decorationsMap out' /\
  next_oid out = next_oid out' /\
  filter is_SetDecorations (effects out) = filter is_SetDecorations (effects out').
Proof.
  intros Hl Hx out out'. subst out out'. rewrite !provide_some. cbn zeta.
  assert (Hsame : pass blame now next
                  = pass (mkBlame (l1 ++ l2) (commits blame)) now next).
  { rewrite Hl. simpl. rewrite loop_skip_missing by done. by apply loop_same_commits. }
  split.
  { rewrite <- (app_nil_r (l1 ++ [x])), <- app_assoc. simpl.
    rewrite loop_skip_missing by done. by rewrite app_nil_r. }
  rewrite <- Hsame. simpl. repeat split.
  rewrite !filter_app. f_equal.
Qed.

(** C6. A pass pushes at most one descriptor per blame line, exactly one
    per line when and only when every line's commit id is in the commit map,
    and the descriptors come in the order of their lines: their ranges are
    the single-line ranges of the lines that resolve, in input order. *)
Theorem heatmap_output_bounded_and_ordered
    (blame : GitBlame GitBlameCommit) now duration shaOrLine type this next :
  let out := onProvideAnnotation heatmap_style heatmapRenderOptions (Some blame)
               now duration shaOrLine type this next in
  length (decorations (provider out)) <= length (lines blame) /\
  (length (decorations (provider out)) = length (lines blame)
   <-> Forall (resolves blame) (lines blame)) /\
  range <$> decorations (provider out)
  = (fun l => Some (lineRange (line l))) <$> filter (resolves blame) (lines blame).
Proof.
  intros out. subst out. rewrite provide_some. cbn zeta.
  pose proof (inv_pass heatmap_style blame now heatmapRenderOptions next) as HI.
  set (s := pass blame now next) in *. simpl.
  assert (Hshape : range <$> ls_decorations s
    = (fun l => Some (lineRange (line l))) <$> filter (resolves blame) (lines blame)).
  { rewrite (inv_decs _ _ _ _ _ _ _ HI). apply omap_filter_fmap.
    - intros l Hl. unfold emitted. split.
      + intros [d Hd]. destruct (ls_map s !! sha l) eqn:Hm; [|done].
        eapply inv_cached_resolves; eauto.
      + intros Hr. destruct (inv_seen _ _ _ _ _ _ _ HI l Hl Hr) as [d ->]. simpl. eauto.
    - intros l d _. unfold emitted. destruct (ls_map s !! sha l); [|done].
      by intros [= <-]. }
  assert (Hlen : length (ls_decorations s) = length (filter (resolves blame) (lines blame))).
  { rewrite <- (length_fmap range), Hshape. by rewrite length_fmap. }
  rewrite Hlen. split; [apply length_filter|]. split; [apply filter_length_all|done].
Qed.

(** C7. When the blame is unavailable the call resolves to [false]: it
    calls neither the editor nor the logger, builds no descriptor, creates no
    cache and leaves [this.decorations] as it was. *)
Theorem heatmap_no_blame_no_work now duration shaOrLine type this next :
  let out := onProvideAnnotation heatmap_style heatmapRenderOptions None
               now duration shaOrLine type this next in
  result out = false /\
  effects out = [] /\
  decorations (provider out) = decorations this /\
  decorationsMap out = None /\
  next_oid out = next.
Proof. by repeat split. Qed.

(** C10. With blame available the call resolves to [true], and it hands
    decorations to the editor exactly when it pushed at least one. When no
    line's commit id is in the commit map nothing is pushed, and the call's
    only effects are the duration log and the selection. *)
Theorem heatmap_empty_pass_not_applied
    (blame : GitBlame GitBlameCommit) now duration shaOrLine type this next :
  let out := onProvideAnnotation heatmap_style heatmapRenderOptions (Some blame)
               now duration shaOrLine type this next in
  result out = true /\
  ((exists ds, SetDecorations ds ∈ effects out) <-> decorations (provider out) <> []) /\
  (Forall (fun l => commits blame !! sha l = None) (lines blame) ->
   decorations (provider out) = [] /\
   effects out = [LogDuration (duration_ms duration); Selection shaOrLine blame] /\
   forall ds, SetDecorations ds ∉ effects out).
Proof.
  intros out. subst out. rewrite provide_some. cbn zeta. simpl.
  set (s := pass blame now next). split; [done|]. split.
  - destruct (ls_decorations s) as [|d ds] eqn:Hd; simpl.
    + split; [|done]. intros [ds0 H]. by not_among H.
    + split; [done|]. intros _. exists (d :: ds). constructor.
  - intros Hall.
    assert (Hnil : s = mkLoop [] ∅ next) by (by apply loop_all_missing).
    rewrite Hnil. simpl. repeat split. intros ds H. by not_among H.
Qed.

End Claims.

(** *** The claims on the sample blames *)

(** The lines [(0,c1); (1,c1); (2,c2)] give three descriptors; the first
    two have one style object, the third another, and the ranges are the
    lines 0, 1 and 2. *)
Lemma heatmap_same_commit_shares_style_witness :
  lines sample_blame = [mkLine "c1" 0; mkLine "c1" 1; mkLine "c2" 2] /\
  commits sample_blame !! "c1" = Some 1000%Z /\
  commits sample_blame !! "c2" = Some 99000000%Z /\
  exists p1 p2,
    decorations (provider (sample_pass sample_blame))
    = [mkDecoration p1 (Some (mkRange 0 0 0 0));
       mkDecoration p1 (Some (mkRange 1 0 1 0));
       mkDecoration p2 (Some (mkRange 2 0 2 0))] /\
    p1 <> p2 /\
    p1 = mkPayload 0 "cold" /\ p2 = mkPayload 1 "hot".
Proof.
  split; [reflexivity|]. split; [vm_compute; reflexivity|].
  split; [vm_compute; reflexivity|].
  destruct (heatmap_same_commit_shares_style sample_style tt sample_blame
              100000000%Z (0, 3000000)%Z None None sample_provider 0)
    as (cache & _ & _ & _ & _ & _ & _ & Hscenario).
  apply (Hscenario 1000%Z 99000000%Z);
    [reflexivity | vm_compute; reflexivity | vm_compute; reflexivity].
Defined.

(** Line 1 of [sample_blame_gap] belongs to [c3], which the map lacks. *)
Lemma heatmap_missing_commit_skipped_witness :
  lines sample_blame_gap = [mkLine "c1" 0] ++ mkLine "c3" 1 :: [mkLine "c1" 2] /\
  commits sample_blame_gap !! sha (mkLine "c3" 1) = None /\
  result (sample_pass sample_blame_gap) = true /\
  decorations (provider (sample_pass sample_blame_gap))
  = decorations (provider (sample_pass
      (mkBlame ([mkLine "c1" 0] ++ [mkLine "c1" 2]) (commits sample_blame_gap)))).
Proof.
  split; [reflexivity|]. split; [vm_compute; reflexivity|].
  destruct (heatmap_missing_commit_skipped sample_style tt sample_blame_gap
              [mkLine "c1" 0] (mkLine "c3" 1) [mkLine "c1" 2]
              100000000%Z (0, 3000000)%Z None None sample_provider 0)
    as (_ & Hres & Hdecs & _); [reflexivity | vm_compute; reflexivity |].
  split; [exact Hres | exact Hdecs].
Defined.

(** No line of [sample_blame_lost] resolves. *)
Lemma heatmap_empty_pass_not_applied_witness :
  Forall (fun l => commits sample_blame_lost !! sha l = None) (lines sample_blame_lost) /\
  result (sample_pass sample_blame_lost) = true /\
  decorations (provider (sample_pass sample_blame_lost)) = [] /\
  effects (sample_pass sample_blame_lost)
  = [LogDuration 3; Selection None sample_blame_lost].
Proof.
  assert (Hlost : Forall (fun l => commits sample_blame_lost !! sha l = None)
                    (lines sample_blame_lost))
    by (repeat constructor; vm_compute; reflexivity).
  split; [exact Hlost|].
  destruct (heatmap_empty_pass_not_applied sample_style tt sample_blame_lost
              100000000%Z (0, 3000000)%Z None None sample_provider 0)
    as (Hres & _ & Hempty).
  destruct (Hempty Hlost) as (Hdecs & Heff & _).
  split; [exact Hres|]. split; [exact Hdecs | exact Heff].
Defined.

End HeatmapFacts.

(* ===================================================================== *)
(** ** Facts about the explorer *)
(* ===================================================================== *)

Module ExplorerFacts.

Import Explorer.

(** *** Reasoning about method bodies *)

Lemma bind_eq {A B} (m : M A) (f : A -> M B) st :
  (m ≫= f) st =
  let '(a, st1, e1) := m st in
  let '(b, st2, e2) := f a st1 in (b, st2, e1 ++ e2).
Proof. reflexivity. Qed.

Lemma hoare_bind {A B} P Q R (m : M A) (f : A -> M B) :
  hoare P m Q -> (forall a, hoare (Q a) (f a) R) -> hoare P (m ≫= f) R.
Proof.
  intros Hm Hf st tr HP b st2 ev. rewrite bind_eq.
  destruct (m st) as [[a st1] e1] eqn:Em.
  destruct (f a st1) as [[b' st2'] e2] eqn:Ef.
  intros [= <- <- <-]. rewrite app_assoc.
  eapply Hf; [|exact Ef]. eapply Hm; [exact HP|exact Em].
Qed.

Section Stable.

Variable I : GitExplorer -> list Event -> Prop.

Lemma stable_ret {A} (a : A) : stable I (ret a).
Proof. intros st tr HI a' st' ev [= <- <- <-]. by rewrite app_nil_r. Qed.

Lemma stable_mret {A} (a : A) : stable I (mret a : M A).
Proof. apply stable_ret. Qed.

Lemma stable_bind {A B} (m : M A) (f : A -> M B) :
  stable I m -> (forall a, stable I (f a)) -> stable I (m ≫= f).
Proof. intros Hm Hf. apply (hoare_bind I (fun _ => I) (fun _ => I)); done. Qed.

Lemma stable_gets {A} (f : GitExplorer -> A) : stable I (gets f).
Proof. intros st tr HI a' st' ev [= <- <- <-]. by rewrite app_nil_r. Qed.

Lemma stable_modify (g : GitExplorer -> GitExplorer) :
  (forall st tr, I st tr -> I (g st) tr) -> stable I (modify g).
Proof. intros Hg st tr HI a' st' ev [= <- <- <-]. rewrite app_nil_r. eauto. Qed.

Lemma stable_emit (e : Event) :
  (forall st tr, I st tr -> I st (tr ++ [e])) -> stable I (emit e).
Proof. intros He st tr HI a' st' ev [= <- <- <-]. eauto. Qed.

Lemma stable_when (b : bool) (m : M unit) : stable I m -> stable I (when b m).
Proof. intros Hm. destruct b; [done|apply stable_ret]. Qed.

End Stable.

(** *** The monitor and the lists of constructed and disposed nodes *)

Lemma monitor_app ph t1 t2 :
  monitor ph (t1 ++ t2) = ph' ← monitor ph t1; monitor ph' t2.
Proof.
  revert ph. induction t1 as [|e t1 IH]; intros ph; [done|]. simpl.
  destruct (monitor_step ph e) as [ph1|]; [apply IH|done].
Qed.


Lemma created_app t1 t2 : created (t1 ++ t2) = created t1 ++ created t2.
Proof. apply omap_app. Qed.

Lemma disposed_app t1 t2 : disposed (t1 ++ t2) = disposed t1 ++ disposed t2.
Proof. apply omap_app. Qed.

Lemma created_neutral ev : Forall neutral ev -> created ev = [].
Proof.
  induction 1 as [|e ev He _ IH]; [done|]. unfold created in *. csimpl.
  rewrite IH. by destruct e.
Qed.

Lemma disposed_neutral ev : Forall neutral ev -> disposed ev = [].
Proof.
  induction 1 as [|e ev He _ IH]; [done|]. unfold disposed in *. csimpl.
  rewrite IH. by destruct e.
Qed.

Lemma monitor_neutral cur ev :
  Forall neutral ev -> monitor (Held cur) ev = Some (Held cur).
Proof.
  induction 1 as [|e ev He _ IH]; [done|]. simpl.
  destruct e; try done; simpl; exact IH.
Qed.

(** *** How the invariant moves *)

(** Events that leave the root alone, and allocations. *)
Lemma lifecycle_neutral pend root next next' tr ev :
  lifecycle pend root next tr -> Forall neutral ev -> next <= next' ->
  lifecycle pend root next' (tr ++ ev).
Proof.
  intros [Hm Hnd Hb Hd Hl Hr Hp] Hev Hle.
  split; rewrite ?created_app, ?disposed_app, ?(created_neutral ev),
    ?(disposed_neutral ev), ?app_nil_r by done; try done.
  - rewrite monitor_app, Hm. simpl. by apply monitor_neutral.
  - intros n Hn. specialize (Hb n Hn). lia.
Qed.

(** [new C(...)] in [getRootNode]. *)
Lemma lifecycle_new root next tr :
  lifecycle None root next tr ->
  lifecycle (Some next) root (S next) (tr ++ [NewNode next]).
Proof.
  intros [Hm Hnd Hb Hd Hl Hr Hp].
  assert (Hfresh : next ∉ created tr) by (intros H; apply Hb in H; lia).
  split; rewrite ?created_app, ?disposed_app; simpl; rewrite ?app_nil_r; try done.
  - rewrite monitor_app, Hm. done.
  - intros n [H| ->%list_elem_of_singleton]%elem_of_app; [apply Hb in H|]; lia.
  - intros n H. apply elem_of_app. left. by apply Hd.
  - intros n [H| ->%list_elem_of_singleton]%elem_of_app Hnd'; [|by right].
    destruct (Hl n H Hnd') as [?|?]; [by left|done].
  - intros n Hn. destruct (Hr n Hn). split; [apply elem_of_app; by left|done].
  - intros n [= <-]. split; [apply elem_of_app; right; by left|].
    split; [intros H; by apply Hd in H|]. intros ->. by destruct (Hr next eq_refl).
Qed.

(** [this._root.dispose(); this._root = undefined] *)
Lemma lifecycle_clear r next tr :
  lifecycle None (Some r) next tr ->
  lifecycle None None next (tr ++ [Dispose r; AssignRoot None]).
Proof.
  intros [Hm Hnd Hb Hd Hl Hr Hp]. destruct (Hr r eq_refl) as [Hrc Hrd].
  split; rewrite ?created_app, ?disposed_app; simpl; rewrite ?app_nil_r; try done.
  - rewrite monitor_app, Hm. simpl. by repeat (case_decide; simpl).
  - apply NoDup_app. split; [done|]. split; [|apply NoDup_singleton].
    intros n Hn ->%list_elem_of_singleton. done.
  - intros n [H| ->%list_elem_of_singleton]%elem_of_app; [by apply Hd|done].
  - intros n Hn Hnd'. destruct (Hl n Hn) as [[= ->]|?]; [|exfalso|done].
    + intros H. apply Hnd', elem_of_app. by left.
    + apply Hnd', elem_of_app. right. by left.
Qed.

(** [this._root.dispose(); this._root = root] with the node just constructed. *)
Lemma lifecycle_replace p r next tr :
  lifecycle (Some p) (Some r) next tr ->
  lifecycle None (Some p) next (tr ++ [Dispose r; AssignRoot (Some p)]).
Proof.
  intros [Hm Hnd Hb Hd Hl Hr Hp]. destruct (Hr r eq_refl) as [Hrc Hrd].
  destruct (Hp p eq_refl) as (Hpc & Hpd & Hpr).
  split; rewrite ?created_app, ?disposed_app; simpl; rewrite ?app_nil_r; try done.
  - rewrite monitor_app, Hm. simpl. repeat (case_decide; simpl); congruence.
  - apply NoDup_app. split; [done|]. split; [|apply NoDup_singleton].
    intros n Hn ->%list_elem_of_singleton. done.
  - intros n [H| ->%list_elem_of_singleton]%elem_of_app; [by apply Hd|done].
  - intros n Hn Hnd'. destruct (Hl n Hn) as [[= ->]|[= ->]]; [|exfalso|by left].
    + intros H. apply Hnd', elem_of_app. by left.
    + apply Hnd', elem_of_app. right. by left.
  - intros n [= <-]. split; [done|].
    intros [H| ->%list_elem_of_singleton]%elem_of_app; [done|congruence].
Qed.

(** [this._root = root] over an empty root, with the node just constructed. *)
Lemma lifecycle_install p next tr :
  lifecycle (Some p) None next tr ->
  lifecycle None (Some p) next (tr ++ [AssignRoot (Some p)]).
Proof.
  intros [Hm Hnd Hb Hd Hl Hr Hp].
  destruct (Hp p eq_refl) as (Hpc & Hpd & Hpr).
  split; rewrite ?created_app, ?disposed_app; simpl; rewrite ?app_nil_r; try done.
  - rewrite monitor_app, Hm. done.
  - intros n Hn Hnd'. destruct (Hl n Hn Hnd') as [?|[= ->]]; [done|by left].
  - intros n [= <-]. done.
Qed.


(** *** The methods that touch the root *)

Lemma clearRoot_eq st :
  clearRoot st =
  match _root st with
  | None => (tt, st, [])
  | Some r => (tt, set_root None st, [Dispose (node_id r); AssignRoot None])
  end.
Proof. unfold clearRoot. rewrite bind_eq. simpl. by destruct (_root st). Qed.

Lemma setRoot_eq root st :
  setRoot root st =
  if same_object (_root st) root then (false, st, [])
  else (true, set_root root st,
        match _root st with
        | Some r => [Dispose (node_id r); AssignRoot (node_id <$> root)]
        | None => [AssignRoot (node_id <$> root)]
        end).
Proof.
  unfold setRoot. rewrite bind_eq. simpl.
  destruct (same_object (_root st) root); [done|]. by destruct (_root st).
Qed.

Lemma new_node_eq uri k st :
  new_node uri k st =
  (mkNode (next_id st) uri k, set_next_id (S (next_id st)) st, [NewNode (next_id st)]).
Proof. reflexivity. Qed.

(** [getHistoryNode] gives nothing, or the root, or a node it constructs. *)
Lemma getHistoryNode_cases env editor st r st' ev :
  getHistoryNode env editor st = (r, st', ev) ->
  (st' = st /\ ev = [] /\ (r = None \/ r = _root st)) \/
  (exists uri k, r = Some (mkNode (next_id st) uri k) /\
     st' = set_next_id (S (next_id st)) st /\ ev = [NewNode (next_id st)]).
Proof.
  unfold getHistoryNode. intros E.
  repeat case_match;
    try (cbv [ret gets] in E; simplify_eq; left; split; [done|]; split; [done|]; by auto).
  rewrite bind_eq in E. cbv [gets] in E.
  destruct (uriEquals env _ _).
  - cbv [ret] in E. simplify_eq. left. auto.
  - right. rewrite bind_eq, new_node_eq in E. cbv [ret] in E. simplify_eq. eauto.
Qed.

(** [getRootNode] touches only [_loading] and the allocation counter. *)
Lemma getRootNode_cases env editor st r st' ev :
  getRootNode env editor st = (r, st', ev) ->
  _root st' = _root st /\ aux st' = aux st /\
  ((next_id st' = next_id st /\ ev = [] /\ (r = None \/ r = _root st)) \/
   (exists uri k, r = Some (mkNode (next_id st) uri k) /\
      next_id st' = S (next_id st) /\ ev = [NewNode (next_id st)])).
Proof.
  unfold getRootNode. rewrite bind_eq. simpl. intros E.
  destruct (_view st) as [[]|] eqn:Ev.
  2:{ rewrite bind_eq in E.
      destruct (getHistoryNode env _ st) as [[r0 st0] e0] eqn:Eh.
      apply getHistoryNode_cases in Eh. simpl in E. simplify_eq.
      destruct Eh as [(-> & -> & Hr)|(uri & k & -> & -> & ->)].
      - repeat split. left. by rewrite app_nil_r.
      - repeat split. right. eauto. }
  all: rewrite bind_eq in E; simpl in E;
    destruct (getRepositories env) as [|repo [|repo' repos]];
    simpl in E; simplify_eq; repeat split; eauto 10.
Qed.

Lemma stable_clearRoot : stable root_inv clearRoot.
Proof.
  intros st tr HI a st' ev. rewrite clearRoot_eq. unfold root_inv in *.
  destruct (_root st) as [r|] eqn:Er; intros [= <- <- <-]; simpl in *.
  - by apply lifecycle_clear.
  - rewrite Er, app_nil_r. done.
Qed.

Lemma hoare_getRootNode env editor :
  hoare root_inv (getRootNode env editor) candidate_inv.
Proof.
  intros st tr HI r st' ev E. apply getRootNode_cases in E.
  destruct E as (Hroot & _ & [(Hn & -> & Hr)|(uri & k & -> & Hn & ->)]).
  - left. unfold root_inv in *. rewrite Hroot, Hn, app_nil_r. done.
  - right. eexists. split; [done|]. unfold root_inv in *. simpl.
    rewrite Hroot, Hn. by apply lifecycle_new.
Qed.

Lemma hoare_setRoot r :
  hoare (candidate_inv r) (setRoot r) (fun _ => root_inv).
Proof.
  intros st tr HC b st' ev. rewrite setRoot_eq. unfold same_object, root_inv in *.
  case_bool_decide as Hsame; intros [= <- <- <-].
  - rewrite app_nil_r. destruct HC as [[_ HI]|(node & -> & HL)]; [done|].
    destruct (lc_pend _ _ _ _ HL _ eq_refl) as (_ & _ & Hne). done.
  - destruct HC as [[[-> | ->] HI]|(node & -> & HL)]; [| done |].
    + unfold root_inv in HI.
      destruct (_root st) as [cur|] eqn:Ec; [|done]. simpl in *.
      by apply lifecycle_clear.
    + destruct (_root st) as [cur|] eqn:Ec; simpl in *.
      * by apply lifecycle_replace.
      * by apply lifecycle_install.
Qed.

Lemma stable_emit_neutral e : neutral e -> stable root_inv (emit e).
Proof.
  intros He. apply stable_emit. intros st tr HI.
  eapply lifecycle_neutral; [exact HI| |done]. by constructor.
Qed.

Lemma stable_modify_same g :
  (forall st, _root (g st) = _root st /\ next_id (g st) = next_id st) ->
  stable root_inv (modify g).
Proof.
  intros Hg. apply stable_modify. intros st tr HI. unfold root_inv.
  destruct (Hg st) as [-> ->]. done.
Qed.

Lemma stable_fresh : stable root_inv fresh.
Proof.
  intros st tr HI n st' ev [= <- <- <-]. unfold root_inv in *. simpl.
  eapply lifecycle_neutral; [exact HI|constructor|lia].
Qed.


Lemma stable_getRootNode_then {A} env editor (f : option ExplorerNode -> M A) :
  (forall r, hoare (candidate_inv r) (f r) (fun _ => root_inv)) ->
  stable root_inv (getRootNode env editor ≫= f).
Proof. intros Hf. eapply hoare_bind; [apply hoare_getRootNode|exact Hf]. Qed.

Lemma hoare_setRoot_then {A} r (f : bool -> M A) :
  (forall b, stable root_inv (f b)) ->
  hoare (candidate_inv r) (setRoot r ≫= f) (fun _ => root_inv).
Proof. intros Hf. eapply hoare_bind; [apply hoare_setRoot|exact Hf]. Qed.

(** Goals [stable root_inv m], by the shape of [m]. *)
Ltac stable_root :=
  repeat first
    [ apply stable_ret | apply stable_mret | apply stable_gets
    | apply stable_clearRoot | apply stable_fresh
    | apply stable_emit_neutral; exact I
    | apply stable_modify_same; intros ?; split; reflexivity
    | apply stable_when
    | apply stable_getRootNode_then; intros ?
    | apply hoare_setRoot_then; intros ?
    | apply stable_bind; [|intros ?; cbv beta]
    | match goal with
      | |- stable _ (if ?b then _ else _) => destruct b
      | |- stable _ (match ?x with _ => _ end) => destruct x
      end ].

Lemma stable_refresh env reason root : stable root_inv (refresh env reason root).
Proof. unfold refresh. stable_root. Qed.

Lemma stable_setView env view : stable root_inv (setView env view).
Proof. unfold setView. stable_root. Qed.

Lemma stable_reset env env' view force : stable root_inv (reset env env' view force).
Proof.
  pose proof stable_refresh. pose proof stable_setView.
  unfold reset. stable_root; auto.
Qed.

Lemma stable_setAutoRefresh env enabled w :
  stable root_inv (setAutoRefresh env enabled w).
Proof. pose proof stable_refresh. unfold setAutoRefresh. stable_root; auto. Qed.

Lemma stable_getChildren env node : stable root_inv (getChildren env node).
Proof. unfold getChildren, new_message. stable_root. Qed.

(** Every operation keeps the invariant of the root. *)
Lemma stable_run_op op : stable root_inv (run_op op).
Proof.
  pose proof stable_refresh. pose proof stable_reset. pose proof stable_setView.
  pose proof stable_setAutoRefresh. pose proof stable_getChildren.
  destruct op; simpl;
    unfold switchTo, onActiveEditorChanged, onRepositoriesChanged,
      onVisibleEditorsChanged, onConfigurationChanged;
    stable_root; auto.
Qed.

Lemma stable_run_ops ops : stable root_inv (run_ops ops).
Proof.
  induction ops as [|op ops IH]; simpl; [apply stable_ret|].
  apply stable_bind; [apply stable_run_op|by intros _].
Qed.

Lemma root_inv_initial wv wa subs next : root_inv (initial wv wa subs next) [].
Proof.
  split; simpl; try done; try apply NoDup_nil_2;
    intros n H; by apply elem_of_nil in H.
Qed.


(** *** What [refresh] leaves alone *)

Lemma framed_clearRoot a : stable (framed a) clearRoot.
Proof.
  intros st tr [Ha Htr] u st' ev. rewrite clearRoot_eq.
  destruct (_root st); intros [= <- <- <-]; split; try done;
    apply Forall_app; split; try done; by repeat constructor.
Qed.

Lemma framed_setRoot a r : stable (framed a) (setRoot r).
Proof.
  intros st tr [Ha Htr] u st' ev. rewrite setRoot_eq.
  destruct (same_object _ _), (_root st); intros [= <- <- <-]; split; try done;
    apply Forall_app; split; try done; by repeat constructor.
Qed.

Lemma framed_getRootNode a env editor : stable (framed a) (getRootNode env editor).
Proof.
  intros st tr [Ha Htr] u st' ev E. apply getRootNode_cases in E.
  destruct E as (_ & Haux & [(_ & -> & _)|(uri & k & _ & _ & ->)]);
    (split; [congruence|]); apply Forall_app; split; try done; by repeat constructor.
Qed.

Lemma framed_emit a e : root_event e -> stable (framed a) (emit e).
Proof.
  intros He. apply stable_emit. intros st tr [Ha Htr]. split; [done|].
  apply Forall_app. split; [done|]. by constructor.
Qed.

Lemma framed_refresh a env reason root : stable (framed a) (refresh env reason root).
Proof.
  unfold refresh.
  repeat first
    [ apply stable_ret | apply stable_gets | apply framed_clearRoot
    | apply framed_setRoot | apply framed_getRootNode
    | apply framed_emit; exact I | apply stable_when
    | apply stable_bind; [|intros ?] ].
Qed.

(** [refresh] logs its reason first, emits only root and tree events, and
    changes only the root, the loading mark and the allocation counter. *)
Lemma refresh_frame env reason root st u st' ev :
  refresh env reason root st = (u, st', ev) ->
  aux st' = aux st /\ (forall e, e ∈ ev -> root_event e) /\
  LogRefresh (default RefreshReason.Command reason) ∈ ev.
Proof.
  intros E.
  destruct (framed_refresh (aux st) env reason root st [] (conj eq_refl (Forall_nil_2 _))
              _ _ _ E) as [Ha Hev].
  split; [done|]. split; [by apply Forall_forall|].
  unfold refresh in E. rewrite bind_eq in E. simpl in E.
  destruct (mbind _ (gets _root) st) as [[u' st''] ev'']. simplify_eq. left.
Qed.

#[local] Arguments refresh : simpl never.

Lemma setAutoRefresh_off env w st :
  setAutoRefresh env false w st
  = (tt, released st, released_events st ++ [ContextAutoRefresh false]).
Proof.
  unfold released, released_events.
  destruct st as [root view loading [d|] wv wa ls subs next]; reflexivity.
Qed.

Lemma setAutoRefresh_on env w st :
  let flag := default (default true (workspaceAutoRefresh st)) w in
  let st2 := match w with
             | Some b => set_workspaceAutoRefresh (Some b) (released st)
             | None => released st
             end in
  let ev2 := match w with
             | Some b => [UpdateAutoRefresh b; FireAutoRefresh]
             | None => []
             end in
  let st3 := if flag then subscribed st2 else st2 in
  let ev3 := if flag then [Subscribe (next_id st)] else [] in
  let ev := released_events st ++ ev2 ++ ev3 ++ [ContextAutoRefresh flag] in
  setAutoRefresh env true w st
  = if default false w then
      let '(u, st4, ev4) :=
        refresh env (Some RefreshReason.AutoRefreshChanged) None st3 in
      (u, st4, ev ++ ev4)
    else (tt, st3, ev).
Proof.
  unfold released, released_events, subscribed, setAutoRefresh.
  destruct st as [root view loading [d|] wv [[]|] ls subs next];
    destruct w as [[]|];
    cbv [mbind M_bind bind gets emit modify ret when fresh]; simpl;
    try reflexivity;
    match goal with
    | |- context [refresh ?e ?r ?x ?s] => destruct (refresh e r x s) as [[[] ?] ?]
    end; reflexivity.
Qed.


(** *** The claims about the explorer *)


(** C4. In a view other than the history, the root [getRootNode] builds
    follows the number of repositories: none gives no root, and [getChildren]
    after [setRoot] then gives one message node, [No repositories found],
    which has no children; one gives a repository node with the flag set;
    more give a repositories node over all of them. *)
Theorem repository_root_by_cardinality env env' editor node st :
  _view st <> Some GitExplorerView.History ->
  let '(r, st1, ev) := getRootNode env editor st in
  match getRepositories env with
  | [] =>
      r = None /\ ev = [] /\
      let '(children, st2, _) := (setRoot r ≫= fun _ => getChildren env' node) st1 in
      _root st2 = None /\
      children = [mkNode (next_id st) None (MessageNode "No repositories found")] /\
      Forall (fun c => node_getChildren env' c = []) children
  | [repo] =>
      r = Some (mkNode (next_id st) (Some (fromRepoPath env (path repo)))
                  (RepositoryNode repo true)) /\
      ev = [NewNode (next_id st)]
  | repositories =>
      r = Some (mkNode (next_id st) None (RepositoriesNode repositories)) /\
      ev = [NewNode (next_id st)]
  end.
Proof.
  intros Hview. destruct st as [root view loading d wv wa ls subs next].
  simpl in Hview.
  assert (Hv : bool_decide (view = Some GitExplorerView.History) = false)
    by by apply bool_decide_eq_false_2.
  unfold getRootNode, getChildren, setRoot, new_message.
  destruct view as [[]|]; try done;
    destruct (getRepositories env) as [|repo [|repo' repos]];
    cbv [mbind M_bind bind gets emit modify ret when fresh new_node]; simpl;
    try done;
    destruct root as [root|]; simpl; destruct loading; simpl;
    repeat split; by repeat constructor.
Qed.

Lemma released_events_inv st e :
  e ∈ released_events st -> exists d, e = DisposeSubscription d.
Proof.
  unfold released_events. destruct (_autoRefreshDisposable st); intros H.
  - apply list_elem_of_singleton in H. eauto.
  - by apply elem_of_nil in H.
Qed.

Lemma released_fields st :
  _autoRefreshDisposable (released st) = None /\
  workspaceAutoRefresh (released st) = workspaceAutoRefresh st /\
  next_id (released st) = next_id st.
Proof. unfold released. by destruct (_autoRefreshDisposable st) eqn:E. Qed.

(** Membership of an event in a list put together with [::] and [++]:
    [mem_inv H leaf] splits [H : e ∈ l] into its cases and hands each to
    [leaf]; [mem_yes] proves [e ∈ l] by finding [e]. *)
Ltac mem_inv H leaf :=
  first
    [ apply elem_of_nil in H; destruct H
    | match type of H with
      | _ ∈ (if ?c then _ else _) => destruct c
      | _ ∈ (if ?c then _ else _) ++ _ => destruct c
      end; mem_inv H leaf
    | apply elem_of_app in H as [H|H]; [mem_inv H leaf|mem_inv H leaf]
    | apply elem_of_cons in H as [H|H]; [leaf H|mem_inv H leaf]
    | leaf H ].

Ltac mem_yes :=
  first
    [ assumption
    | apply elem_of_app; first [ left; mem_yes | right; mem_yes ]
    | apply elem_of_cons; first [ left; reflexivity | right; mem_yes ] ].

(** C2, as the code has it. The notification is fired exactly when the
    call enables auto refresh and gives the workspace flag; the flag is
    written to the workspace store exactly then, with the value given; a
    tree refresh follows exactly when the flag given is [true]. A call that
    disables auto refresh writes nothing, fires nothing and refreshes
    nothing, whether or not the flag is given. When the flag is omitted the
    stored one counts, [true] if none is stored. *)
Theorem autoRefresh_notifies_when_enabled_and_flag_given env enabled w st :
  let '(_, st', ev) := setAutoRefresh env enabled w st in
  let flag := default (default true (workspaceAutoRefresh st)) w in
  (FireAutoRefresh ∈ ev <-> enabled = true /\ is_Some w) /\
  (forall b, UpdateAutoRefresh b ∈ ev <-> enabled = true /\ w = Some b) /\
  (LogRefresh RefreshReason.AutoRefreshChanged ∈ ev <-> enabled = true /\ w = Some true) /\
  ((exists reason, LogRefresh reason ∈ ev) -> enabled = true /\ w = Some true) /\
  workspaceAutoRefresh st'
  = (if enabled then match w with Some b => Some b | None => workspaceAutoRefresh st end
     else workspaceAutoRefresh st) /\
  (is_Some (_autoRefreshDisposable st') <-> enabled = true /\ flag = true) /\
  ContextAutoRefresh (enabled && flag) ∈ ev.
Proof.
  pose proof (released_events_inv st) as Hrel.
  destruct (released_fields st) as (Hr1 & Hr2 & Hr3).
  assert (Hshape : exists ev4 st',
    (forall e, e ∈ ev4 -> root_event e /\ enabled = true /\ w = Some true) /\
    (enabled = true -> w = Some true ->
     LogRefresh RefreshReason.AutoRefreshChanged ∈ ev4) /\
    workspaceAutoRefresh st'
    = (if enabled then match w with Some b => Some b | None => workspaceAutoRefresh st end
       else workspaceAutoRefresh st) /\
    (is_Some (_autoRefreshDisposable st')
     <-> enabled = true /\ default (default true (workspaceAutoRefresh st)) w = true) /\
    setAutoRefresh env enabled w st
    = (tt, st',
       released_events st
       ++ (if enabled then match w with
                           | Some b => [UpdateAutoRefresh b; FireAutoRefresh]
                           | None => []
                           end else [])
       ++ (if enabled && default (default true (workspaceAutoRefresh st)) w
           then [Subscribe (next_id st)] else [])
       ++ [ContextAutoRefresh (enabled && default (default true (workspaceAutoRefresh st)) w)]
       ++ ev4)).
  { assert (Hnil : forall e : Event, e ∈ @nil Event ->
              root_event e /\ enabled = true /\ w = Some true)
      by (intros e H; by apply elem_of_nil in H).
    destruct enabled.
    - rewrite setAutoRefresh_on. cbn zeta. destruct w as [[]|]; simpl.
      + destruct (refresh _ _ _ _) as [[[] st4] ev4] eqn:E.
        apply refresh_frame in E. destruct E as (Ha & Hev & Hlog).
        injection Ha as _ Hd _ Hw _ _. simpl in *.
        exists ev4, st4. split; [by auto|]. split; [done|]. split; [done|].
        split; [|by rewrite <- ?app_assoc, ?app_nil_r].
        rewrite Hd. split; [done|eauto].
      + exists [], (set_workspaceAutoRefresh (Some false) (released st)).
        split; [done|]. split; [done|]. split; [done|].
        split; [|by rewrite <- ?app_assoc, ?app_nil_r].
        simpl. rewrite Hr1. split; [by intros [? ?]|by intros [_ [=]]].
      + destruct (default true (workspaceAutoRefresh st)) eqn:Ed; simpl.
        * exists [], (subscribed (released st)).
          split; [done|]. split; [done|]. split; [done|].
          split; [|by rewrite <- ?app_assoc, ?app_nil_r]. simpl. split; [done|eauto].
        * exists [], (released st).
          split; [done|]. split; [done|]. split; [done|].
          split; [|by rewrite <- ?app_assoc, ?app_nil_r].
          rewrite Hr1. split; [by intros [? ?]|by intros [_ [=]]].
    - rewrite setAutoRefresh_off. exists [], (released st).
      split; [done|]. split; [done|]. split; [done|]. split; [|done].
      rewrite Hr1. split; [by intros [? ?]|by intros [[=] _]]. }
  destruct Hshape as (ev4 & st' & Hev & Hlog & Hws & Hsub & ->). cbn zeta.
  assert (Hleaf : forall e, e ∈ released_events st \/ e ∈ ev4 ->
                  (exists d, e = DisposeSubscription d) \/
                  (root_event e /\ enabled = true /\ w = Some true)).
  { intros e [H|H]; [left; by apply Hrel|right; by apply Hev]. }
  clear Hrel Hev.
  split; [|split; [|split; [|split; [|split; [done|split; [done|mem_yes]]]]]].
  - split.
    + intros H. destruct enabled, w as [[]|]; simpl in H; try done;
        mem_inv H ltac:(fun H =>
          first [ discriminate H
                | destruct (Hleaf _ (or_introl H)) as [[? ?]|(? & ? & ?)]; done
                | destruct (Hleaf _ (or_intror H)) as [[? ?]|(? & ? & ?)]; done ]).
    + intros [-> [b ->]]. simpl. mem_yes.
  - intros b. split.
    + intros H. destruct enabled, w as [[]|]; simpl in H;
        mem_inv H ltac:(fun H =>
          first [ discriminate H
                | by simplify_eq
                | destruct (Hleaf _ (or_introl H)) as [[? ?]|(? & ? & ?)]; done
                | destruct (Hleaf _ (or_intror H)) as [[? ?]|(? & ? & ?)]; done ]).
    + intros [-> ->]. simpl. mem_yes.
  - split.
    + intros H. destruct enabled, w as [[]|]; simpl in H; try done;
        mem_inv H ltac:(fun H =>
          first [ discriminate H
                | destruct (Hleaf _ (or_introl H)) as [[? ?]|(? & ? & ?)]; done
                | destruct (Hleaf _ (or_intror H)) as [[? ?]|(? & ? & ?)]; done ]).
    + intros [-> ->]. specialize (Hlog eq_refl eq_refl). mem_yes.
  - intros [reason H]. destruct enabled, w as [[]|]; simpl in H; try done;
      mem_inv H ltac:(fun H =>
        first [ discriminate H
              | destruct (Hleaf _ (or_introl H)) as [[? ?]|(? & ? & ?)]; done
              | destruct (Hleaf _ (or_intror H)) as [[? ?]|(? & ? & ?)]; done ]).
Qed.


(** C8. [setAutoRefresh(false, ...)] releases the subscription it finds,
    whatever the state, and installs none: afterwards the explorer holds no
    subscription, the one it held was disposed and no longer listens, no
    listener was added. A second call changes nothing more: the state after
    it is the state after the first, and all it does is set the command
    context again. *)
Theorem autoRefresh_off_releases_and_is_idempotent env w st :
  let '(_, st1, ev1) := setAutoRefresh env false w st in
  let '(_, st2, ev2) := setAutoRefresh env false w st1 in
  _autoRefreshDisposable st1 = None /\
  (forall d, _autoRefreshDisposable st = Some d ->
     DisposeSubscription d ∈ ev1 /\ (d ∉ listeners st1)) /\
  (forall d, Subscribe d ∉ ev1) /\
  (forall d, d ∈ listeners st1 -> d ∈ listeners st) /\
  st2 = st1 /\
  ev2 = [ContextAutoRefresh false].
Proof.
  rewrite setAutoRefresh_off. cbv beta iota zeta. rewrite setAutoRefresh_off.
  destruct (released_fields st) as (Hr1 & _ & _).
  assert (Hagain : released (released st) = released st
                   /\ released_events (released st) = []).
  { unfold released at 1, released_events. by rewrite Hr1. }
  destruct Hagain as [-> ->]. split; [done|].
  unfold released, released_events. destruct (_autoRefreshDisposable st) as [d0|] eqn:Ed; simpl.
  - split; [|split; [|split; [|done]]].
    + intros d [= <-]. split; [left|].
      intros [Hne _]%list_elem_of_filter. done.
    + intros d H. mem_inv H ltac:(fun H => discriminate H).
    + by intros d [_ H]%list_elem_of_filter.
  - split; [done|]. split; [|done].
    intros d H. mem_inv H ltac:(fun H => discriminate H).
Qed.


(** *** The claims on sample input *)

(** C2 as the spec words it fails where auto refresh is disabled: the call
    [setAutoRefresh(false, false)] is given the flag, and the workspace store
    keeps the [true] it had; nothing is written and no notification fired. *)
Lemma autoRefresh_flag_given_but_not_persisted :
  let '(_, st', ev) :=
    setAutoRefresh empty_env false (Some false) (initial None (Some true) [] 0) in
  workspaceAutoRefresh st' <> Some false /\
  workspaceAutoRefresh st' = Some true /\
  ev = [ContextAutoRefresh false].
Proof. vm_compute. by repeat split. Qed.

(** On a new explorer whose store holds [false]: enabling with the flag
    [true] fires the notification, writes [true] and refreshes. *)
Lemma autoRefresh_notifies_when_enabled_and_flag_given_witness :
  let '(_, st', ev) :=
    setAutoRefresh one_repo_env true (Some true) (initial None (Some false) [] 0) in
  FireAutoRefresh ∈ ev /\
  UpdateAutoRefresh true ∈ ev /\
  LogRefresh RefreshReason.AutoRefreshChanged ∈ ev /\
  workspaceAutoRefresh st' = Some true.
Proof.
  pose proof (autoRefresh_notifies_when_enabled_and_flag_given one_repo_env true
                (Some true) (initial None (Some false) [] 0)) as H.
  destruct (setAutoRefresh one_repo_env true (Some true)
              (initial None (Some false) [] 0)) as [[u st'] ev].
  destruct H as (Hfire & Hupd & Hlog & _ & Hws & _).
  split; [apply Hfire; split; [reflexivity|eexists; reflexivity]|].
  split; [apply Hupd; split; reflexivity|].
  split; [apply Hlog; split; reflexivity|exact Hws].
Defined.


(** With no repository, in the repository view. *)
Lemma repository_root_by_cardinality_witness :
  _view (initial None None [] 0) <> Some GitExplorerView.History /\
  let '(r, st1, ev) := getRootNode empty_env None (initial None None [] 0) in
  r = None /\ ev = [] /\
  let '(children, _, _) :=
    (setRoot r ≫= fun _ => getChildren empty_env None) st1 in
  children = [mkNode 0 None (MessageNode "No repositories found")].
Proof.
  assert (Hview : _view (initial None None [] 0) <> Some GitExplorerView.History)
    by discriminate.
  split; [exact Hview|].
  pose proof (repository_root_by_cardinality empty_env empty_env None None
                (initial None None [] 0) Hview) as H.
  destruct (getRootNode empty_env None (initial None None [] 0)) as [[r st1] ev].
  cbn [getRepositories empty_env] in H. destruct H as (Hr & Hev & H).
  split; [exact Hr|]. split; [exact Hev|].
  destruct ((setRoot r ≫= fun _ => getChildren empty_env None) st1)
    as [[children st2] ev2].
  destruct H as (_ & Hc & _). exact Hc.
Defined.

(** An explorer that holds subscription 7. *)
Lemma autoRefresh_off_releases_and_is_idempotent_witness :
  let st := mkExplorer None (Some GitExplorerView.Repository) false (Some 7)
              None None [3; 7] [7] 8 in
  _autoRefreshDisposable st = Some 7 /\
  let '(_, st1, ev1) := setAutoRefresh empty_env false None st in
  DisposeSubscription 7 ∈ ev1 /\ (7 ∉ listeners st1) /\ listeners st1 = [3].
Proof.
  cbv zeta. split; [reflexivity|].
  pose proof (autoRefresh_off_releases_and_is_idempotent empty_env None
    (mkExplorer None (Some GitExplorerView.Repository) false (Some 7)
       None None [3; 7] [7] 8)) as H.
  destruct (setAutoRefresh empty_env false None _) as [[u st1] ev1] eqn:E.
  vm_compute in E. injection E as <- <- <-.
  destruct (setAutoRefresh empty_env false None _) as [[u2 st2] ev2].
  destruct H as (_ & Hrel & _).
  destruct (Hrel 7 eq_refl) as [Hd Hl].
  split; [exact Hd|]. split; [exact Hl|reflexivity].
Defined.

End ExplorerFacts.

(* ===================================================================== *)
(** ** Facts about the line blame commands *)
(* ===================================================================== *)

Module CommandsFacts.

Import Commands.

Section Execute.

Context {LineAnnotationType Exception Value TextEditor : Type}.
Variable configuration_get : Completion (Exception := Exception) LineAnnotationType.
Variable controller :
  option TextEditor -> LineAnnotationType ->
  Completion (Exception := Exception) (Promise (Exception := Exception) Value).

(** What is thrown while the [try] block is evaluated, by the configuration
    store or by the controller before it returns, is caught: it is logged,
    the error message is shown, and the promise of [execute] is fulfilled. *)
Lemma execute_catches_what_is_thrown classname message editor args_type ex effects :
  try_block configuration_get controller editor args_type = (Throws ex, effects) ->
  execute configuration_get controller classname message editor args_type
  = (Fulfilled (ErrorMessageShown message),
     effects ++ [LoggerError ex classname; ShowErrorMessage message]).
Proof. intros H. unfold execute. by rewrite H. Qed.

(** A promise the controller returns rejected is handed on as it is: the
    [catch] clause does not run. *)
Lemma execute_hands_on_rejection classname message editor args_type ex effects :
  try_block configuration_get controller editor args_type
  = (Returns (Rejected ex), effects) ->
  execute configuration_get controller classname message editor args_type
  = (Rejected ex, effects).
Proof. intros H. unfold execute. by rewrite H. Qed.

(** The controller is called at most once: nothing is tried again. *)
Lemma execute_calls_controller_once classname message editor args_type :
  length (filter is_ControllerCall
            (snd (execute configuration_get controller classname message
                    editor args_type))) <= 1.
Proof.
  unfold execute, try_block.
  destruct args_type as [type|]; [|destruct configuration_get as [type|ex]];
    try destruct (controller editor type) as [[v|ex]|ex]; simpl; lia.
Qed.

End Execute.

(** C9, where the code departs from it. The controller's promise is
    rejected: the promise of [execute] is rejected with the same exception,
    for both commands, and neither [Logger.error] nor
    [window.showErrorMessage] is called. An exception thrown before the
    controller returns is caught, logged and answered with the message. *)
Theorem line_blame_rejection_reaches_the_caller :
  ToggleLineBlameCommand_execute (Returns "trailing") failing_controller (Some 0) None
  = (Rejected "blame failed", [ConfigurationGet; ControllerCall (Some 0) "trailing"]) /\
  ShowLineBlameCommand_execute (Returns "trailing") failing_controller (Some 0) None
  = (Rejected "blame failed", [ConfigurationGet; ControllerCall (Some 0) "trailing"]) /\
  ToggleLineBlameCommand_execute (Returns "trailing") throwing_controller (Some 0) None
  = (Fulfilled (ErrorMessageShown
       "Unable to toggle line blame annotations. See output channel for more details"),
     [ConfigurationGet; ControllerCall (Some 0) "trailing";
      LoggerError "no editor" "ToggleLineBlameCommand";
      ShowErrorMessage
        "Unable to toggle line blame annotations. See output channel for more details"]).
Proof. repeat split. Qed.

End CommandsFacts.

(* ===================================================================== *)
(** ** More about the heatmap pass *)
(* ===================================================================== *)

Module HeatmapMore.

Import Heatmap HeatmapFacts.

Section Pass.

Context {GitBlameCommit RenderOptions Style : Type}.
Variable heatmap_style : GitBlameCommit -> Z -> RenderOptions -> Style.
Variable heatmapRenderOptions : RenderOptions.

Lemma fmap_omap_agree {A B C} (f : A -> option B) (g : B -> C)
    (h : A -> option C) (l : list A) :
  (forall x, x ∈ l -> g <$> f x = h x) -> g <$> omap f l = omap h l.
Proof.
  induction l as [|a l IH]; intros H; [done|]. csimpl.
  rewrite <- (H a) by left.
  destruct (f a) as [b|]; csimpl; rewrite IH; try done;
    intros x Hx; apply H; by right.
Qed.

(** The allocation counter moves by the number of entries the cache gains. *)
Lemma loop_next_size (blame : GitBlame GitBlameCommit) now ro ls : forall s,
  ls_next (loop heatmap_style blame now ro ls s) + size (ls_map s)
  = ls_next s + size (ls_map (loop heatmap_style blame now ro ls s)).
Proof.
  induction ls as [|l ls IH]; intros s; [done|].
  pose proof (IH (loop_body heatmap_style blame now ro s l)) as H.
  unfold loop in *. simpl.
  destruct (ls_map s !! sha l) as [d|] eqn:Hm.
  - rewrite (body_hit _ _ _ _ _ _ _ Hm) in *. done.
  - destruct (commits blame !! sha l) as [c|] eqn:Hc.
    + rewrite (body_fresh _ _ _ _ _ _ _ Hm Hc) in *. simpl in H.
      rewrite map_size_insert_None in H by done. lia.
    + rewrite (body_skip _ _ _ _ _ _ Hm Hc) in *. done.
Qed.

(** X1. The cache cannot be seen in what a pass pushes, object identity
    apart: the style value and the range of each descriptor are those of
    computing [Annotations.heatmap] afresh for every line whose commit is in
    the map, in line order. *)
Theorem heatmap_cache_is_transparent
    (blame : GitBlame GitBlameCommit) now duration shaOrLine type this next :
  let out := onProvideAnnotation heatmap_style heatmapRenderOptions (Some blame)
               now duration shaOrLine type this next in
  (fun d => (value (payload d), range d)) <$> decorations (provider out)
  = omap (fun l => commit ← commits blame !! sha l;
                   Some (heatmap_style commit now heatmapRenderOptions,
                         Some (lineRange (line l))))
         (lines blame).
Proof.
  intros out. subst out. rewrite provide_some. cbn zeta. simpl.
  pose proof (inv_pass heatmap_style blame now heatmapRenderOptions next) as HI.
  destruct HI as [Hfirst Hinj Hseen Hdecs Hnext]. rewrite Hdecs.
  apply fmap_omap_agree. intros l Hl. unfold emitted.
  destruct (ls_map _ !! sha l) as [d|] eqn:Hm; simpl.
  - destruct (Hfirst _ _ Hm) as (c & pre & l0 & post & _ & _ & _ & Hc & Hd & _).
    rewrite Hc. simpl. by rewrite Hd.
  - destruct (commits blame !! sha l) as [c|] eqn:Hc; [|done].
    destruct (Hseen l Hl) as [d Hd]; [by exists c|congruence].
Qed.

(** X2. [Annotations.heatmap] runs once for each commit id that occurs in
    the lines and is in the commit map, however many lines carry it: the
    cache ends with exactly those ids, and the allocation counter has moved
    by their number, which is at most the number of descriptors pushed. *)
Theorem heatmap_one_style_per_commit
    (blame : GitBlame GitBlameCommit) now duration shaOrLine type this next :
  let out := onProvideAnnotation heatmap_style heatmapRenderOptions (Some blame)
               now duration shaOrLine type this next in
  exists cache,
    decorationsMap out = Some cache /\
    (forall k, is_Some (cache !! k)
       <-> exists l, l ∈ lines blame /\ sha l = k /\ resolves blame l) /\
    next_oid out = next + size cache /\
    size cache <= length (decorations (provider out)).
Proof.
  intros out. subst out. rewrite provide_some. cbn zeta. simpl.
  pose proof (inv_pass heatmap_style blame now heatmapRenderOptions next) as HI.
  pose proof (loop_next_size blame now heatmapRenderOptions (lines blame)
                (mkLoop [] ∅ next)) as Hsize.
  simpl in Hsize. rewrite map_size_empty in Hsize.
  set (s := loop _ _ _ _ _ _) in *.
  destruct HI as [Hfirst Hinj Hseen Hdecs Hnext].
  exists (ls_map s). split; [done|]. split; [|split; [lia|]].
  - intros k. split.
    + intros [d Hd].
      destruct (Hfirst _ _ Hd) as (c & pre & l & post & Hl & Hk & _ & Hc & _).
      exists l. split; [rewrite Hl; apply elem_of_app; right; left|].
      split; [done|]. unfold resolves. rewrite Hk. eauto.
    + intros (l & Hl & <- & Hr). by apply Hseen.
  - (* every cached id has pushed a descriptor with its own style object *)
    assert (Hle :
      length ((fun kd : string * DecorationOptions Style => oid (payload kd.2))
                <$> map_to_list (ls_map s))
      <= length ((fun d => oid (payload d)) <$> ls_decorations s));
      [|by rewrite !length_fmap, length_map_to_list in Hle].
    apply submseteq_length, NoDup_submseteq.
    + apply NoDup_fmap_2_strong; [|apply NoDup_map_to_list].
      intros [k1 d1] [k2 d2] H1%elem_of_map_to_list H2%elem_of_map_to_list Ho.
      simpl in *. assert (k1 = k2) by eauto. subst. congruence.
    + intros n ([k d] & -> & Hkd%elem_of_map_to_list)%list_elem_of_fmap. simpl.
      destruct (Hfirst _ _ Hkd) as (c & pre & l & post & Hl & Hk & _ & Hc & Hd & _).
      apply list_elem_of_fmap. exists d. split; [done|]. rewrite Hdecs.
      apply list_elem_of_omap. exists l.
      split; [rewrite Hl; apply elem_of_app; right; left|].
      unfold emitted. rewrite Hk, Hkd. simpl. f_equal. rewrite Hd. done.
Qed.

End Pass.

End HeatmapMore.

(* ===================================================================== *)
(** ** More about the explorer *)
(* ===================================================================== *)

Module ExplorerMore.

Import Explorer ExplorerFacts.

#[local] Arguments refresh : simpl never.

(** Goals [stable I m] by the shape of [m], with [leaf] for the methods
    and steps that have a lemma. *)
Ltac stable_with leaf :=
  repeat first
    [ apply stable_ret | apply stable_mret | apply stable_gets
    | leaf
    | apply stable_when
    | apply stable_bind; [|intros ?; cbv beta]
    | match goal with
      | |- stable _ (if ?b then _ else _) => destruct b
      | |- stable _ (match ?x with _ => _ end) => destruct x
      end ].

(** *** The fields the root methods leave alone *)

Lemma kept_clearRoot a n : stable (kept a n) clearRoot.
Proof.
  intros st tr [Ha Hn] u st' ev. rewrite clearRoot_eq.
  destruct (_root st); by intros [= <- <- <-].
Qed.

Lemma kept_setRoot a n r : stable (kept a n) (setRoot r).
Proof.
  intros st tr [Ha Hn] u st' ev. rewrite setRoot_eq.
  destruct (same_object _ _); by intros [= <- <- <-].
Qed.

Lemma kept_getRootNode a n env editor : stable (kept a n) (getRootNode env editor).
Proof.
  intros st tr [Ha Hn] u st' ev E. apply getRootNode_cases in E.
  destruct E as (_ & Haux & [(Hnext & _)|(uri & k & _ & Hnext & _)]);
    split; try congruence; lia.
Qed.

Lemma kept_emit a n e : stable (kept a n) (emit e).
Proof. by apply stable_emit. Qed.

Lemma kept_refresh a n env reason root : stable (kept a n) (refresh env reason root).
Proof.
  unfold refresh.
  stable_with ltac:(first [ apply kept_clearRoot | apply kept_setRoot
                          | apply kept_getRootNode | apply kept_emit ]).
Qed.

(** A method that keeps the other fields keeps every property of them. *)
Lemma stable_of_kept {A} (m : M A) (P : GitExplorer -> Prop) :
  (forall a n, stable (kept a n) m) ->
  (forall st st', aux st' = aux st -> next_id st <= next_id st' -> P st -> P st') ->
  stable (fun st _ => P st) m.
Proof.
  intros Hm HP st tr Hst x st' ev E.
  destruct (Hm (aux st) (next_id st) st [] (conj eq_refl (le_n _)) _ _ _ E) as [Ha Hn].
  eauto.
Qed.

(** *** What [refresh] is *)

(** [refresh] when it leaves the root as it is. *)
Lemma refresh_keeps_root env reason root st :
  _root st <> None ->
  root <> None \/ _view st <> Some GitExplorerView.History ->
  refresh env reason root st
  = (tt, st, [LogRefresh (default RefreshReason.Command reason); FireTreeData None]).
Proof.
  intros Hroot Hwhy. unfold refresh.
  cbv [mbind M_bind bind gets emit modify ret when]. simpl.
  rewrite (bool_decide_eq_false_2 (_root st = None)) by done. simpl.
  destruct Hwhy as [H|H].
  - rewrite (bool_decide_eq_false_2 (root = None)) by done. done.
  - rewrite (bool_decide_eq_false_2 (_view st = _)) by done.
    by rewrite andb_false_r.
Qed.

(** [refresh] when it builds the root anew. *)
Lemma refresh_rebuilds_root env reason root st :
  _root st = None \/ (root = None /\ _view st = Some GitExplorerView.History) ->
  refresh env reason root st
  = let '(_, s1, e1) := clearRoot st in
    let '(r, s2, e2) := getRootNode env (activeTextEditor env) s1 in
    let '(_, s3, e3) := setRoot r s2 in
    (tt, s3, LogRefresh (default RefreshReason.Command reason)
             :: e1 ++ e2 ++ e3 ++ [FireTreeData None]).
Proof.
  intros Hwhy. unfold refresh.
  assert (Hc : bool_decide (_root st = None)
               || bool_decide (root = None)
                  && bool_decide (_view st = Some GitExplorerView.History) = true).
  { destruct Hwhy as [H|[H1 H2]].
    - by rewrite (bool_decide_eq_true_2 _ H).
    - rewrite (bool_decide_eq_true_2 _ H1), (bool_decide_eq_true_2 _ H2).
      by rewrite orb_true_r. }
  cbv [mbind M_bind bind gets emit ret when]. rewrite Hc.
  destruct (clearRoot st) as [[[] s1] e1].
  destruct (getRootNode env (activeTextEditor env) s1) as [[r s2] e2].
  destruct (setRoot r s2) as [[b s3] e3].
  simpl. by rewrite ?app_nil_r, <- ?app_assoc.
Qed.


(** The outline of [refresh]. *)
Lemma refresh_outline env reason root st :
  let '(_, st', ev) := refresh env reason root st in
  aux st' = aux st /\
  next_id st <= next_id st' /\
  (exists mid,
     ev = LogRefresh (default RefreshReason.Command reason) :: mid ++ [FireTreeData None] /\
     Forall (fun e => match e with
                      | NewNode _ | Dispose _ | AssignRoot _ => True
                      | _ => False
                      end) mid) /\
  (_root st <> None ->
   root <> None \/ _view st <> Some GitExplorerView.History ->
   st' = st /\
   ev = [LogRefresh (default RefreshReason.Command reason); FireTreeData None]).
Proof.
  destruct (refresh env reason root st) as [[u st'] ev] eqn:E.
  destruct (kept_refresh (aux st) (next_id st) env reason root st []
              (conj eq_refl (le_n _)) _ _ _ E) as [Ha Hn].
  split; [done|]. split; [done|]. split.
  - destruct (decide (_root st = None)) as [Hr|Hr];
      [|destruct (decide (root = None /\ _view st = Some GitExplorerView.History))
          as [Hh|Hh]].
    3:{ rewrite refresh_keeps_root in E; [|done|].
        - injection E as <- <- <-. exists []. by split.
        - destruct (decide (root = None)); [right|left]; tauto. }
    all: rewrite refresh_rebuilds_root in E by tauto;
      destruct (clearRoot st) as [[[] s1] e1] eqn:Ec;
      destruct (getRootNode _ _ s1) as [[r s2] e2] eqn:Eg;
      destruct (setRoot r s2) as [[b s3] e3] eqn:Es;
      injection E as <- <-;
      exists (e1 ++ e2 ++ e3); (split; [by rewrite <- !app_assoc|]);
      rewrite clearRoot_eq in Ec; rewrite setRoot_eq in Es;
      apply getRootNode_cases in Eg;
      destruct Eg as (_ & _ & [(_ & -> & _)|(uri & k & _ & _ & ->)]);
      destruct (_root st), (same_object _ _), (_root s2);
      injection Ec as <- <-; injection Es as <- <- <-;
      simpl; by repeat constructor.
  - intros Hr Hwhy. rewrite refresh_keeps_root in E by done. by injection E as <- <- <-.
Qed.

(** X3. [refresh] touches nothing but the root, the loading mark and the
    allocation counter: the view, the subscription, the workspace store,
    the listeners and the subscription list are as before. It logs its
    reason first and fires the tree event last, once; between the two are
    only events of the root. With a root in place, and a root argument or a
    view other than the history, it does nothing else at all. *)
Theorem refresh_touches_only_the_root env reason root st :
  let '(_, st', ev) := refresh env reason root st in
  aux st' = aux st /\
  next_id st <= next_id st' /\
  (exists mid,
     ev = LogRefresh (default RefreshReason.Command reason) :: mid ++ [FireTreeData None] /\
     Forall (fun e => match e with
                      | NewNode _ | Dispose _ | AssignRoot _ => True
                      | _ => False
                      end) mid) /\
  (_root st <> None ->
   root <> None \/ _view st <> Some GitExplorerView.History ->
   st' = st /\
   ev = [LogRefresh (default RefreshReason.Command reason); FireTreeData None]).
Proof. apply refresh_outline. Qed.

(** *** One listener *)

Lemma one_listener_modify g :
  (forall st, _autoRefreshDisposable (g st) = _autoRefreshDisposable st /\
              listeners (g st) = listeners st /\
              subscriptions (g st) = subscriptions st /\
              next_id (g st) = next_id st) ->
  stable one_listener (modify g).
Proof.
  intros Hg. apply stable_modify. intros st tr [Hl Hs].
  destruct (Hg st) as (Hd & Hls & Hsubs & Hn).
  unfold one_listener. rewrite Hd, Hls, Hsubs, Hn. done.
Qed.

Lemma one_listener_of_kept {A} (m : M A) :
  (forall a n, stable (kept a n) m) -> stable one_listener m.
Proof.
  intros Hm.
  apply (stable_of_kept m (fun st => one_listener st [])); [done|].
  intros st st' Ha Hn [Hl Hs]. injection Ha as _ Hd _ _ Hls Hsubs.
  unfold one_listener. rewrite Hd, Hls, Hsubs. split; [done|].
  intros d Hdd. destruct (Hs d Hdd). split; [done|lia].
Qed.

Lemma one_listener_fresh : stable one_listener fresh.
Proof.
  intros st tr [Hl Hs] n st' ev [= <- <- <-]. split; [done|]. simpl.
  intros d Hdd. destruct (Hs d Hdd). split; [done|lia].
Qed.

Lemma one_listener_released st :
  one_listener st [] -> listeners (released st) = [] /\ one_listener (released st) [].
Proof.
  intros [Hl Hs]. unfold released, one_listener.
  destruct (_autoRefreshDisposable st) as [d|] eqn:Ed; simpl.
  - rewrite Hl. rewrite filter_cons, decide_False by (intros H; by apply H).
    by rewrite filter_nil.
  - by rewrite Ed.
Qed.

Lemma one_listener_setAutoRefresh env enabled w :
  stable one_listener (setAutoRefresh env enabled w).
Proof.
  intros st tr Hone u st' ev E.
  assert (Hst : one_listener st []) by exact Hone.
  destruct (one_listener_released st Hst) as [Hnil [Hl Hs]].
  destruct (released_fields st) as (Hr1 & Hr2 & Hr3).
  assert (Hsub : forall s, listeners s = [] -> one_listener (subscribed s) []).
  { intros s Hs0. split; simpl; [by rewrite Hs0|].
    intros d [= <-]. split; [apply elem_of_app; right; left|lia]. }
  destruct enabled.
  - rewrite setAutoRefresh_on in E. cbn zeta in E.
    set (st2 := match w with
                | Some b => set_workspaceAutoRefresh (Some b) (released st)
                | None => released st
                end) in *.
    assert (H2 : listeners st2 = [] /\ one_listener st2 [])
      by (subst st2; destruct w; done).
    set (st3 := if default (default true (workspaceAutoRefresh st)) w
                then subscribed st2 else st2) in *.
    assert (H3 : one_listener st3 []).
    { subst st3. destruct (default (default true (workspaceAutoRefresh st)) w).
      - apply Hsub, H2.
      - apply H2. }
    destruct (default false w).
    + destruct (refresh _ _ _ st3) as [[[] st4] ev4] eqn:Er.
      injection E as <- <-.
      exact (one_listener_of_kept _ (fun a n => kept_refresh a n _ _ _)
               st3 [] H3 _ _ _ Er).
    + by injection E as <- <-.
  - rewrite setAutoRefresh_off in E. by injection E as <- <-.
Qed.

Lemma one_listener_run_op op : stable one_listener (run_op op).
Proof.
  destruct op; simpl;
    unfold switchTo, reset, setView, onActiveEditorChanged, onRepositoriesChanged,
      onVisibleEditorsChanged, onConfigurationChanged, getChildren, new_message;
    stable_with ltac:(first
      [ apply one_listener_setAutoRefresh | apply one_listener_fresh
      | apply one_listener_of_kept; intros ? ?;
        first [ apply kept_clearRoot | apply kept_setRoot
              | apply kept_getRootNode | apply kept_refresh ]
      | apply stable_emit; intros ? ? ?; assumption
      | apply one_listener_modify; intros ?; by repeat split ]).
Qed.

Lemma one_listener_run_ops ops : stable one_listener (run_ops ops).
Proof.
  induction ops as [|op ops IH]; simpl; [apply stable_ret|].
  apply stable_bind; [apply one_listener_run_op|by intros _].
Qed.

(** X4. As long as its calls do not overlap, each having run to its end
    before the next starts, an explorer never has more than one listener on
    the repositories-changed event: after any such sequence of calls from
    its construction the listeners are exactly the subscription it holds, if
    it holds one, and that subscription is in the extension's subscription
    list. Calls that overlap at the [await] of [setAutoRefresh], between its
    release and its subscription, are not covered. *)
Theorem at_most_one_repositories_listener (ops : list Op) wv wa subs next :
  let '(_, st, _) := run_ops ops (initial wv wa subs next) in
  listeners st = match _autoRefreshDisposable st with
                 | Some d => [d]
                 | None => []
                 end /\
  (forall d, _autoRefreshDisposable st = Some d -> d ∈ subscriptions st).
Proof.
  destruct (run_ops ops (initial wv wa subs next)) as [[u st] tr] eqn:E.
  assert (H0 : one_listener (initial wv wa subs next) []) by (by split).
  destruct (one_listener_run_ops ops _ [] H0 _ _ _ E) as [Hl Hs].
  split; [done|]. intros d Hd. by destruct (Hs d Hd).
Qed.

(** X5. Every caller passes the configured [gitExplorer.autoRefresh] as
    [enabled]. After such a call the explorer holds a subscription exactly
    when its [autoRefresh] getter says [true], and that is the value it has
    set the command context to. *)
Theorem subscription_follows_autoRefresh_getter env w st :
  let '(_, st', ev) := setAutoRefresh env (configAutoRefresh env) w st in
  (is_Some (_autoRefreshDisposable st') <-> autoRefresh env st' = true) /\
  ContextAutoRefresh (autoRefresh env st') ∈ ev.
Proof.
  unfold autoRefresh.
  destruct (released_fields st) as (Hr1 & Hr2 & Hr3).
  destruct (configAutoRefresh env).
  - rewrite setAutoRefresh_on. cbn zeta. destruct w as [[]|]; simpl.
    + destruct (refresh _ _ _ _) as [[[] st4] ev4] eqn:Er.
      apply refresh_frame in Er. destruct Er as (Ha & _ & _).
      injection Ha as _ Hd _ Hw _ _. simpl in *. rewrite Hd, Hw. simpl.
      split; [split; eauto|]. mem_yes.
    + rewrite Hr1. split; [split; [by intros [? ?]|done]|]. mem_yes.
    + destruct (default true (workspaceAutoRefresh st)) eqn:Ed; simpl.
      * rewrite Hr2, Ed. split; [split; eauto|]. mem_yes.
      * rewrite Hr1, Hr2, Ed. split; [split; [by intros [? ?]|done]|]. mem_yes.
  - rewrite setAutoRefresh_off. rewrite Hr1. simpl.
    split; [split; [by intros [? ?]|done]|]. mem_yes.
Qed.


(** *** Switching the view *)

Lemma setView_eq env view st :
  setView env view st =
  if bool_decide (_view st = Some view) then (tt, st, [])
  else
    (tt,
     set_view (Some view)
       (if bool_decide (configView env = GitExplorerView.Auto)
        then set_workspaceView (Some view) st else st),
     (if bool_decide (configView env = GitExplorerView.Auto)
      then [UpdateView view] else [])
     ++ ContextView (Some view)
        :: (if bool_decide (view <> GitExplorerView.Repository)
            then [StopWatchingFileSystem] else [])).
Proof.
  unfold setView. cbv [mbind M_bind bind gets emit modify ret when].
  destruct (bool_decide (_view st = Some view)); [done|].
  by destruct (bool_decide (configView env = _)), (bool_decide (view <> _)).
Qed.

Lemma reset_eq env env' view force st :
  reset env env' view force st =
  let '(_, s1, e1) := setView env view st in
  let '(_, s2, e2) := if force then clearRoot s1 else (tt, s1, []) in
  let '(r, s3, e3) := getRootNode env (activeTextEditor env) s2 in
  let '(b, s4, e4) := setRoot r s3 in
  let '(_, s5, e5) :=
    if b || force then refresh env' (Some RefreshReason.ViewChanged) None s4
    else (tt, s4, []) in
  (tt, s5, e1 ++ e2 ++ e3 ++ e4 ++ e5).
Proof.
  unfold reset. cbv [mbind M_bind bind gets when ret].
  destruct (setView env view st) as [[[] s1] e1].
  assert (Hclear :
    (if force && negb (bool_decide (_root s1 = None)) then clearRoot s1
     else (tt, s1, []))
    = (if force then clearRoot s1 else (tt, s1, []))).
  { destruct force; [|done]. simpl. rewrite clearRoot_eq.
    destruct (_root s1); [by rewrite bool_decide_eq_false_2|].
    by rewrite bool_decide_eq_true_2. }
  assert (Hif : forall b : bool,
    (if b then clearRoot else fun st0 : GitExplorer => (tt, st0, [])) s1
    = (if b then clearRoot s1 else (tt, s1, []))) by (by intros []).
  rewrite Hif, Hclear.
  destruct (if force then clearRoot s1 else (tt, s1, [])) as [[[] s2] e2].
  destruct (getRootNode env (activeTextEditor env) s2) as [[r s3] e3].
  destruct (setRoot r s3) as [[b s4] e4].
  assert (Hif' : forall c : bool,
    (if c then refresh env' (Some RefreshReason.ViewChanged) None
     else fun st0 : GitExplorer => (tt, st0, [])) s4
    = (if c then refresh env' (Some RefreshReason.ViewChanged) None s4
       else (tt, s4, []))) by (by intros []).
  rewrite Hif'.
  destruct (if b || force then _ else _) as [[[] s5] e5].
  simpl. by rewrite ?app_nil_r.
Qed.

(** [getRootNode] in the history view when nothing visible is tracked. *)
Lemma getRootNode_nothing_trackable env editor st :
  _view st = Some GitExplorerView.History -> nothing_trackable env ->
  getRootNode env editor st = (None, set_loading true st, []).
Proof.
  intros Hv Hn. unfold getRootNode, getHistoryNode, nothing_trackable in *.
  cbv [mbind M_bind bind gets modify ret]. rewrite Hv.
  destruct (orActive env editor); [|done].
  rewrite Hn. simpl. by rewrite orb_true_r.
Qed.


Lemma kept_apply {A} (m : M A) :
  (forall a n, stable (kept a n) m) ->
  forall st x st' ev, m st = (x, st', ev) ->
  aux st' = aux st /\ next_id st <= next_id st'.
Proof.
  intros Hm st x st' ev E.
  exact (Hm (aux st) (next_id st) st [] (conj eq_refl (le_n _)) _ _ _ E).
Qed.

(** The root after [clearRoot]. *)
Lemma clearRoot_root st u st' ev :
  clearRoot st = (u, st', ev) ->
  _root st' = None /\ aux st' = aux st /\ next_id st' = next_id st /\
  (forall r, _root st = Some r -> Dispose (node_id r) ∈ ev).
Proof.
  rewrite clearRoot_eq. destruct (_root st) as [r|] eqn:Er; intros [= <- <- <-].
  - repeat split; try done. intros r' [= <-]. left.
  - by repeat split.
Qed.

Lemma since_clearRoot n0 : stable (root_since n0) clearRoot.
Proof.
  intros st tr [Hr Hn] u st' ev E. apply clearRoot_root in E.
  destruct E as (Hroot & _ & Hnext & _). split; [|lia].
  intros r. by rewrite Hroot.
Qed.

Lemma since_getRootNode n0 env editor :
  hoare (root_since n0) (getRootNode env editor) (candidate_since n0).
Proof.
  intros st tr [Hr Hn] r st' ev E. apply getRootNode_cases in E.
  destruct E as (Hroot & _ & [(Hnext & _ & Hc)|(uri & k & -> & Hnext & _)]).
  - split; [split; [by rewrite Hroot|lia]|].
    intros x ->. destruct Hc as [|Hc]; [done|]. by apply Hr.
  - split; [split; [by rewrite Hroot|lia]|]. intros x [= <-]. simpl. lia.
Qed.

Lemma since_setRoot n0 r :
  hoare (candidate_since n0 r) (setRoot r) (fun _ => root_since n0).
Proof.
  intros st tr [[Hr Hn] Hc] b st' ev. rewrite setRoot_eq.
  destruct (same_object _ _); intros [= <- <- <-]; by split.
Qed.

Lemma since_getRootNode_then {A} n0 env editor (f : option ExplorerNode -> M A) :
  (forall r, hoare (candidate_since n0 r) (f r) (fun _ => root_since n0)) ->
  stable (root_since n0) (getRootNode env editor ≫= f).
Proof.
  intros Hf.
  apply (hoare_bind (root_since n0) (candidate_since n0) (fun _ => root_since n0));
    [apply since_getRootNode|exact Hf].
Qed.

Lemma since_setRoot_then {A} n0 r (f : bool -> M A) :
  (forall b, stable (root_since n0) (f b)) ->
  hoare (candidate_since n0 r) (setRoot r ≫= f) (fun _ => root_since n0).
Proof.
  intros Hf.
  apply (hoare_bind (candidate_since n0 r) (fun _ => root_since n0)
           (fun _ => root_since n0)); [apply since_setRoot|exact Hf].
Qed.

Lemma since_refresh n0 env reason root :
  stable (root_since n0) (refresh env reason root).
Proof.
  unfold refresh.
  stable_with ltac:(first
    [ apply since_clearRoot
    | apply stable_emit; intros ? ? ?; assumption
    | apply since_getRootNode_then; intros ?
    | apply since_setRoot_then; intros ? ]).
Qed.

(** [switchTo] to a view the explorer is not in: what [reset] does by force. *)
Lemma switchTo_other_view env env' view st u st' ev :
  _view st <> Some view ->
  switchTo env env' view st = (u, st', ev) ->
  _view st' = Some view /\
  (forall r, _root st = Some r -> Dispose (node_id r) ∈ ev) /\
  (forall r', _root st' = Some r' -> next_id st <= node_id r') /\
  ContextView (Some view) ∈ ev /\
  LogRefresh RefreshReason.ViewChanged ∈ ev /\
  FireTreeData None ∈ ev /\
  workspaceView st'
  = (if bool_decide (configView env = GitExplorerView.Auto) then Some view
     else workspaceView st).
Proof.
  intros Hv. unfold switchTo. cbv [mbind M_bind bind gets].
  rewrite (bool_decide_eq_false_2 _ Hv). rewrite reset_eq, setView_eq.
  rewrite (bool_decide_eq_false_2 _ Hv).
  set (s1 := set_view (Some view) _). set (e1 := _ ++ ContextView _ :: _).
  assert (H1 : _root s1 = _root st /\ next_id s1 = next_id st
               /\ _view s1 = Some view
               /\ workspaceView s1
                  = (if bool_decide (configView env = GitExplorerView.Auto)
                     then Some view else workspaceView st)).
  { subst s1. by destruct (bool_decide (configView env = _)). }
  destruct H1 as (Hroot1 & Hnext1 & Hview1 & Hws1).
  assert (He1 : ContextView (Some view) ∈ e1).
  { subst e1. apply elem_of_app. right. left. }
  clearbody s1 e1.
  destruct (clearRoot s1) as [[[] s2] e2] eqn:E2.
  pose proof (since_clearRoot (next_id st) s1 []) as Hs2.
  apply clearRoot_root in E2 as Hc2. destruct Hc2 as (Hroot2 & Ha2 & Hnext2 & Hd2).
  assert (Hsince2 : root_since (next_id st) s2 []).
  { split; [intros r; by rewrite Hroot2|lia]. }
  destruct (getRootNode env (activeTextEditor env) s2) as [[r s3] e3] eqn:E3.
  pose proof (since_getRootNode _ _ _ _ [] Hsince2 _ _ _ E3) as Hc3.
  apply (kept_apply _ (fun a n => kept_getRootNode a n _ _)) in E3 as [Ha3 _].
  destruct (setRoot r s3) as [[b s4] e4] eqn:E4.
  pose proof (since_setRoot _ _ _ _ Hc3 _ _ _ E4) as Hsince4.
  apply (kept_apply _ (fun a n => kept_setRoot a n _)) in E4 as [Ha4 _].
  rewrite orb_true_r.
  destruct (refresh env' _ None s4) as [[[] s5] e5] eqn:E5.
  pose proof (since_refresh _ _ _ _ _ _ Hsince4 _ _ _ E5) as [Hsince5 _].
  pose proof (refresh_outline env' (Some RefreshReason.ViewChanged) None s4) as Ho.
  rewrite E5 in Ho. destruct Ho as (Ha5 & _ & (mid & -> & _) & _).
  intros [= <- <- <-].
  assert (Haux : aux s5 = aux s1) by congruence.
  injection Haux as Hview _ Hws _ _ _.
  split; [congruence|]. split.
  { intros r0 Hr0. rewrite <- Hroot1 in Hr0. apply Hd2 in Hr0. mem_yes. }
  split; [done|]. split; [mem_yes|]. split.
  { do 4 (apply elem_of_app; right). left. }
  split; [|congruence].
  do 4 (apply elem_of_app; right). right. apply elem_of_app. right. left.
Qed.

(** X6. [switchTo] leaves the explorer in the view asked for, and asking
    again for the view the explorer is in does nothing: no node is disposed or
    built, nothing is written, no event is fired. *)
Theorem switchTo_twice_is_once env1 env1' env2 env2' view st :
  let '(_, st1, _) := switchTo env1 env1' view st in
  _view st1 = Some view /\
  switchTo env2 env2' view st1 = (tt, st1, []).
Proof.
  destruct (switchTo env1 env1' view st) as [[[] st1] ev1] eqn:E.
  assert (Hv : _view st1 = Some view).
  { destruct (decide (_view st = Some view)) as [Hsame|Hne].
    - unfold switchTo in E. cbv [mbind M_bind bind gets ret] in E.
      rewrite (bool_decide_eq_true_2 _ Hsame) in E. by injection E as <- <-.
    - by destruct (switchTo_other_view _ _ _ _ _ _ _ Hne E). }
  split; [done|]. unfold switchTo. cbv [mbind M_bind bind gets ret].
  by rewrite (bool_decide_eq_true_2 _ Hv).
Qed.

(** X7. [switchTo] to a view the explorer is not in always starts over:
    the root it had is disposed, the root it ends with, if any, was
    constructed during the call (never the old instance), the command context
    is set to the new view, and the tree is refreshed with the reason
    [ViewChanged]. The view is written to the workspace store exactly when
    the configured view is [Auto]. *)
Theorem switchTo_other_view_starts_over env env' view st :
  _view st <> Some view ->
  let '(_, st', ev) := switchTo env env' view st in
  _view st' = Some view /\
  (forall r, _root st = Some r -> Dispose (node_id r) ∈ ev) /\
  (forall r', _root st' = Some r' -> next_id st <= node_id r') /\
  ContextView (Some view) ∈ ev /\
  LogRefresh RefreshReason.ViewChanged ∈ ev /\
  FireTreeData None ∈ ev /\
  workspaceView st'
  = (if bool_decide (configView env = GitExplorerView.Auto) then Some view
     else workspaceView st).
Proof.
  intros Hv. destruct (switchTo env env' view st) as [[u st'] ev] eqn:E.
  by apply (switchTo_other_view _ _ _ _ _ _ _ Hv E).
Qed.

(** A new explorer asked for the history view. *)
Lemma switchTo_other_view_starts_over_witness :
  _view (initial None None [] 0) <> Some GitExplorerView.History /\
  let '(_, st', ev) :=
    switchTo (history_env "a.ts") (history_env "a.ts") GitExplorerView.History
      (initial None None [] 0) in
  _view st' = Some GitExplorerView.History /\
  LogRefresh RefreshReason.ViewChanged ∈ ev.
Proof.
  assert (Hv : _view (initial None None [] 0) <> Some GitExplorerView.History)
    by discriminate.
  split; [exact Hv|].
  pose proof (switchTo_other_view_starts_over (history_env "a.ts") (history_env "a.ts")
                GitExplorerView.History (initial None None [] 0) Hv) as H.
  destruct (switchTo _ _ _ _) as [[u st'] ev].
  destruct H as (H1 & _ & _ & _ & H2 & _). split; [exact H1|exact H2].
Defined.


(** *** The history view *)

(** [refresh] in the history view, without a root, when nothing visible is
    tracked. *)
Lemma refresh_nothing_trackable env reason root st :
  _view st = Some GitExplorerView.History -> nothing_trackable env ->
  _root st = None ->
  refresh env reason root st
  = (tt, set_loading true st,
     [LogRefresh (default RefreshReason.Command reason); FireTreeData None]).
Proof.
  intros Hv Hn Hr. rewrite refresh_rebuilds_root by auto.
  rewrite clearRoot_eq, Hr. rewrite getRootNode_nothing_trackable by done.
  rewrite setRoot_eq. simpl. rewrite Hr. done.
Qed.

(** X8. Switching to the history view while no visible editor shows a
    tracked document ends without a root, and without an error: the root the
    explorer had is disposed, nothing is constructed, and [getChildren] then
    answers with the one message node that says there is no active file. *)
Theorem history_without_trackable_editor_has_no_root env env' st :
  nothing_trackable env -> nothing_trackable env' ->
  _view st <> Some GitExplorerView.History ->
  let '(_, st', ev) := switchToHistoryView env env' st in
  _root st' = None /\
  _view st' = Some GitExplorerView.History /\
  (forall r, _root st = Some r -> Dispose (node_id r) ∈ ev) /\
  (forall n, NewNode n ∉ ev) /\
  forall env2 node,
    (getChildren env2 node st').1.1
    = [mkNode (next_id st') None
         (MessageNode ("No active file " +:+ GlyphChars_Dash +:+ " no history to show"))].
Proof.
  intros Hn Hn' Hv. unfold switchToHistoryView, switchTo.
  cbv [mbind M_bind bind gets]. rewrite (bool_decide_eq_false_2 _ Hv).
  rewrite reset_eq, setView_eq, (bool_decide_eq_false_2 _ Hv).
  set (s1 := set_view _ _). set (e1 := _ ++ ContextView _ :: _).
  assert (H1 : _root s1 = _root st /\ _view s1 = Some GitExplorerView.History)
    by (subst s1; by destruct (bool_decide (configView env = _))).
  assert (He1 : forall n, NewNode n ∉ e1).
  { subst e1. intros n H.
    destruct (bool_decide (configView env = _));
      mem_inv H ltac:(fun H => discriminate H). }
  destruct H1 as [Hroot1 Hview1]. clearbody s1 e1.
  destruct (clearRoot s1) as [[[] s2] e2] eqn:E2.
  apply clearRoot_root in E2 as Hc2. destruct Hc2 as (Hroot2 & Ha2 & _ & Hd2).
  assert (Hview2 : _view s2 = Some GitExplorerView.History)
    by (injection Ha2 as ->; done).
  assert (He2 : forall n, NewNode n ∉ e2).
  { rewrite clearRoot_eq in E2. destruct (_root s1); injection E2 as _ <-;
      intros n H; mem_inv H ltac:(fun H => discriminate H). }
  rewrite getRootNode_nothing_trackable by done.
  rewrite setRoot_eq. simpl. rewrite Hroot2. simpl.
  rewrite refresh_nothing_trackable by done. simpl.
  split; [done|]. split; [done|]. split.
  { intros r Hr. rewrite <- Hroot1 in Hr. apply Hd2 in Hr. mem_yes. }
  split.
  { intros n H. apply elem_of_app in H as [H|H]; [by apply (He1 n)|].
    apply elem_of_app in H as [H|H]; [by apply (He2 n)|].
    mem_inv H ltac:(fun H => discriminate H). }
  intros env2 node. unfold getChildren, new_message.
  cbv [mbind M_bind bind gets modify ret when fresh]. simpl.
  rewrite Hroot2. simpl. rewrite Hview2. done.
Qed.

(** A new explorer, in a window without editors. *)
Lemma history_without_trackable_editor_has_no_root_witness :
  nothing_trackable empty_env /\
  _view (initial None None [] 0) <> Some GitExplorerView.History /\
  let '(_, st', ev) := switchToHistoryView empty_env empty_env (initial None None [] 0) in
  _root st' = None /\ _view st' = Some GitExplorerView.History.
Proof.
  assert (Hn : nothing_trackable empty_env) by reflexivity.
  assert (Hv : _view (initial None None [] 0) <> Some GitExplorerView.History)
    by discriminate.
  split; [exact Hn|]. split; [exact Hv|].
  pose proof (history_without_trackable_editor_has_no_root empty_env empty_env
                (initial None None [] 0) Hn Hn Hv) as H.
  destruct (switchToHistoryView _ _ _) as [[u st'] ev].
  destruct H as (H1 & H2 & _). split; [exact H1|exact H2].
Defined.

(** X9. In the history view, when the focus moves to an editor without a
    tracked document (the output or debug pane) while a tracked editor is
    still visible, the explorer keeps the root it has: nothing is disposed,
    nothing is built, no tree event is fired. *)
Theorem focus_on_untracked_pane_keeps_root env env' editor st :
  _view st = Some GitExplorerView.History ->
  existsb (trackable env) (visibleTextEditors env) = true ->
  trackable env editor = false ->
  onActiveEditorChanged env env' (Some editor) st = (tt, set_loading true st, []).
Proof.
  intros Hv Hvis Hed.
  assert (Hlen : bool_decide (length (visibleTextEditors env) = 0) = false).
  { apply bool_decide_eq_false_2. by destruct (visibleTextEditors env). }
  assert (Hget : getRootNode env (Some editor) st = (_root st, set_loading true st, [])).
  { unfold getRootNode, getHistoryNode.
    cbv [mbind M_bind bind gets modify ret]. rewrite Hv. simpl.
    rewrite Hlen, Hvis. simpl. unfold trackable in Hed.
    destruct (document editor) as [uri|]; [by rewrite Hed|done]. }
  unfold onActiveEditorChanged. cbv [mbind M_bind bind gets ret].
  rewrite Hv. rewrite (bool_decide_eq_true_2 (Some _ = Some _)) by done.
  cbv [negb]. rewrite Hget. rewrite setRoot_eq.
  assert (Hsame : same_object (_root (set_loading true st)) (_root st) = true)
    by (by apply bool_decide_eq_true_2).
  by rewrite Hsame.
Qed.

(** The history of a file, and the focus on a pane without a document. *)
Lemma focus_on_untracked_pane_keeps_root_witness :
  _view history_state = Some GitExplorerView.History /\
  existsb (trackable (history_env "a.ts")) (visibleTextEditors (history_env "a.ts")) = true /\
  trackable (history_env "a.ts") (mkEditor None) = false /\
  onActiveEditorChanged (history_env "a.ts") (history_env "a.ts") (Some (mkEditor None))
    history_state
  = (tt, set_loading true history_state, []).
Proof.
  split; [reflexivity|]. split; [reflexivity|]. split; [reflexivity|].
  apply (focus_on_untracked_pane_keeps_root (history_env "a.ts") (history_env "a.ts")
           (mkEditor None) history_state); reflexivity.
Defined.

(** The root of an explorer that has run from its construction was
    allocated before the counter. *)
Lemma root_below_counter ops wv wa subs next u st tr r :
  run_ops ops (initial wv wa subs next) = (u, st, tr) ->
  _root st = Some r -> node_id r < next_id st.
Proof.
  intros E Hr.
  pose proof (stable_run_ops ops _ [] (root_inv_initial wv wa subs next) _ _ _ E) as Hinv.
  destruct Hinv as [_ _ Hbound _ _ Hroot _].
  apply Hbound. apply (Hroot (node_id r)). by rewrite Hr.
Qed.

(** X10. In the history view the root follows the active file. When the
    focus moves to an editor on a tracked file of a repository, the explorer
    keeps its root if that is the history of the same file, and does
    nothing; otherwise it constructs the history node of the file, disposes
    the root it had, takes the new one and fires one tree refresh with the
    reason [ActiveEditorChanged]. *)
Theorem history_root_follows_the_active_file
    ops wv wa subs next env env' editor docUri repo :
  let '(_, st, _) := run_ops ops (initial wv wa subs next) in
  _view st = Some GitExplorerView.History ->
  existsb (trackable env) (visibleTextEditors env) = true ->
  document editor = Some docUri ->
  isTrackable env docUri = true ->
  getRepository env (fromUri env docUri) = Some repo ->
  let '(_, st', ev) := onActiveEditorChanged env env' (Some editor) st in
  if uriEquals env (fromUri env docUri) (_root st ≫= node_uri)
  then st' = set_loading true st /\ ev = []
  else
    _root st'
    = Some (mkNode (next_id st) (Some (fromUri env docUri)) (HistoryNode repo)) /\
    ev = NewNode (next_id st)
         :: match _root st with
            | Some r => [Dispose (node_id r)]
            | None => []
            end
         ++ [AssignRoot (Some (next_id st));
             LogRefresh RefreshReason.ActiveEditorChanged; FireTreeData None].
Proof.
  destruct (run_ops ops (initial wv wa subs next)) as [[u st] tr] eqn:E.
  pose proof (fun r => root_below_counter _ _ _ _ _ _ _ _ r E) as Hlt. clear E.
  intros Hv Hvis Hdoc Htr Hrepo.
  assert (Hlen : bool_decide (length (visibleTextEditors env) = 0) = false).
  { apply bool_decide_eq_false_2. by destruct (visibleTextEditors env). }
  remember (uriEquals env (fromUri env docUri) (_root st ≫= node_uri)) as same
    eqn:Hsame.
  assert (Hget : getRootNode env (Some editor) st
    = if same
      then (_root st, set_loading true st, [])
      else (Some (mkNode (next_id st) (Some (fromUri env docUri)) (HistoryNode repo)),
            set_loading true (set_next_id (S (next_id st)) st),
            [NewNode (next_id st)])).
  { unfold getRootNode, getHistoryNode.
    cbv [mbind M_bind bind gets modify ret]. rewrite Hv. cbn [orActive].
    rewrite Hlen, Hvis, Hdoc, Htr. cbn [negb orb]. rewrite Hrepo.
    change (uriEquals env (fromUri env docUri) (option_bind _ _ node_uri (_root st)))
      with (uriEquals env (fromUri env docUri) (_root st ≫= node_uri)).
    rewrite <- Hsame. by destruct same. }
  clear Hsame.
  unfold onActiveEditorChanged. cbv [mbind M_bind bind gets ret].
  rewrite Hv. rewrite (bool_decide_eq_true_2 (Some _ = Some _)) by done.
  cbv [negb]. rewrite Hget. clear Hget.
  destruct same.
  - rewrite setRoot_eq.
    assert (Hsame : same_object (_root (set_loading true st)) (_root st) = true)
      by (by apply bool_decide_eq_true_2).
    by rewrite Hsame.
  - rewrite setRoot_eq.
    set (node := mkNode (next_id st) (Some (fromUri env docUri)) (HistoryNode repo)).
    set (s1 := set_loading true (set_next_id (S (next_id st)) st)).
    assert (Hdiff : same_object (_root s1) (Some node) = false).
    { apply bool_decide_eq_false_2. subst s1 node. simpl.
      destruct (_root st) as [r|] eqn:Hr; [|done].
      intros [= Heq]. specialize (Hlt r eq_refl). lia. }
    rewrite Hdiff.
    rewrite refresh_keeps_root by (first [done|by left]).
    split; [done|]. subst s1 node. simpl. by destruct (_root st).
Qed.

(** The history of one file, and the focus on another. *)
Lemma history_root_follows_the_active_file_witness :
  let '(_, st, _) :=
    run_ops [OpSwitchTo (history_env "a.ts") (history_env "a.ts") GitExplorerView.History]
      (initial None None [] 0) in
  _root st = Some (mkNode 1 (Some "a.ts") (HistoryNode (mkRepository "/work/app"))) /\
  let '(_, st', ev) :=
    onActiveEditorChanged (history_env "b.ts") (history_env "b.ts")
      (Some (mkEditor (Some "b.ts"))) st in
  _root st' = Some (mkNode 2 (Some "b.ts") (HistoryNode (mkRepository "/work/app"))) /\
  ev = [NewNode 2; Dispose 1; AssignRoot (Some 2);
        LogRefresh RefreshReason.ActiveEditorChanged; FireTreeData None].
Proof.
  pose proof (history_root_follows_the_active_file
                [OpSwitchTo (history_env "a.ts") (history_env "a.ts")
                   GitExplorerView.History]
                None None [] 0 (history_env "b.ts") (history_env "b.ts")
                (mkEditor (Some "b.ts")) "b.ts" (mkRepository "/work/app")) as H.
  destruct (run_ops _ _) as [[u st] tr] eqn:E.
  vm_compute in E. injection E as _ <- _.
  split; [reflexivity|].
  specialize (H eq_refl eq_refl eq_refl eq_refl eq_refl).
  destruct (onActiveEditorChanged _ _ _ _) as [[u' st'] ev].
  exact H.
Defined.

(** X11. When the last tracked editor goes, the history root goes with it:
    with a root, in the history view, and no tracked document among the
    visible editors, the root is disposed, none is built and the tree is
    refreshed. While a tracked editor remains visible nothing happens. *)
Theorem history_root_follows_visible_editors env editors r st :
  _view st = Some GitExplorerView.History ->
  _root st = Some r ->
  (existsb (trackable env) editors = true ->
   onVisibleEditorsChanged env editors st = (tt, st, [])) /\
  (existsb (trackable env) editors = false -> nothing_trackable env ->
   onVisibleEditorsChanged env editors st
   = (tt, set_loading true (set_root None st),
      [Dispose (node_id r); AssignRoot None;
       LogRefresh RefreshReason.VisibleEditorsChanged; FireTreeData None])).
Proof.
  intros Hv Hr. unfold onVisibleEditorsChanged.
  cbv [mbind M_bind bind gets when ret]. rewrite Hv, Hr. simpl. split.
  - intros He. rewrite He. simpl.
    rewrite bool_decide_eq_false_2; [done|]. by destruct editors.
  - intros He Hn. rewrite He, orb_true_r.
    rewrite clearRoot_eq, Hr. rewrite refresh_nothing_trackable by done. done.
Qed.

(** The history of a file, when its editor is closed. *)
Lemma history_root_follows_visible_editors_witness :
  _view history_state = Some GitExplorerView.History /\
  _root history_state
  = Some (mkNode 0 (Some "a.ts") (HistoryNode (mkRepository "/work/app"))) /\
  existsb (trackable empty_env) [] = false /\
  nothing_trackable empty_env /\
  onVisibleEditorsChanged empty_env [] history_state
  = (tt, set_loading true (set_root None history_state),
     [Dispose 0; AssignRoot None;
      LogRefresh RefreshReason.VisibleEditorsChanged; FireTreeData None]).
Proof.
  split; [reflexivity|]. split; [reflexivity|]. split; [reflexivity|].
  split; [reflexivity|].
  apply (proj2 (history_root_follows_visible_editors empty_env [] _ history_state
                  eq_refl eq_refl)); reflexivity.
Defined.

(** *** The repository view *)

(** X12. In the repository view a repositories-changed event always
    builds the root anew from the repositories of that moment: the old root
    is disposed, and the new one is nothing, the one repository (flagged), or
    the list, by their number. In any other view the event is ignored. *)
Theorem repositories_changed_rebuilds_root env st :
  let '(_, st', ev) := onRepositoriesChanged env st in
  (_view st = Some GitExplorerView.Repository ->
   (forall r, _root st = Some r -> Dispose (node_id r) ∈ ev) /\
   _root st'
   = match getRepositories env with
     | [] => None
     | [repo] => Some (mkNode (next_id st) (Some (fromRepoPath env (path repo)))
                         (RepositoryNode repo true))
     | repositories => Some (mkNode (next_id st) None (RepositoriesNode repositories))
     end /\
   LogRefresh RefreshReason.RepoChanged ∈ ev /\
   FireTreeData None ∈ ev) /\
  (_view st <> Some GitExplorerView.Repository -> st' = st /\ ev = []).
Proof.
  unfold onRepositoriesChanged. cbv [mbind M_bind bind gets emit ret]. simpl.
  destruct (decide (_view st = Some GitExplorerView.Repository)) as [Hv|Hv].
  2:{ rewrite (bool_decide_eq_false_2 _ Hv). simpl. by split. }
  rewrite (bool_decide_eq_true_2 _ Hv). simpl.
  destruct (clearRoot st) as [[[] s1] e1] eqn:E1.
  apply clearRoot_root in E1. destruct E1 as (Hroot1 & Ha1 & Hnext1 & Hd1).
  assert (Hv1 : _view s1 = Some GitExplorerView.Repository)
    by (injection Ha1 as ->; done).
  rewrite refresh_rebuilds_root by auto. rewrite clearRoot_eq, Hroot1.
  unfold getRootNode. cbv [mbind M_bind bind gets modify ret new_node fresh emit].
  rewrite Hv1.
  destruct (getRepositories env) as [|repo [|repo' repos]]; simpl;
    rewrite setRoot_eq; simpl; rewrite Hroot1, ?Hnext1; simpl;
    (split; [|done]); intros _;
    (split; [intros r Hr; apply Hd1 in Hr; mem_yes|]);
    (split; [done|]); split; mem_yes.
Qed.


(** *** Start-up and the stored view *)

(** [setAutoRefresh] without the workspace flag: no refresh follows. *)
Lemma setAutoRefresh_flag_omitted env enabled st :
  setAutoRefresh env enabled None st
  = let flag := enabled && default true (workspaceAutoRefresh st) in
    (tt,
     (if flag then subscribed (released st) else released st),
     released_events st
     ++ (if flag then [Subscribe (next_id st)] else [])
     ++ [ContextAutoRefresh flag]).
Proof.
  destruct enabled.
  - rewrite setAutoRefresh_on. simpl. by destruct (default true _).
  - by rewrite setAutoRefresh_off.
Qed.

(** The end of [onConfigurationChanged] at start-up, once the view is
    resolved. *)
Lemma initialise_tail env view s1 u st' ev :
  _root s1 = None ->
  bind (modify (set_view (Some view))) (fun _ =>
   bind (emit (ContextView (Some view))) (fun _ =>
   bind (getRootNode env (activeTextEditor env)) (fun r =>
   bind (setRoot r) (fun _ => ret tt)))) s1 = (u, st', ev) ->
  _view st' = Some view /\
  _autoRefreshDisposable st' = _autoRefreshDisposable s1 /\
  workspaceView st' = workspaceView s1 /\
  workspaceAutoRefresh st' = workspaceAutoRefresh s1 /\
  ContextView (Some view) ∈ ev /\
  (forall e, e ∈ ev ->
     match e with NewNode _ | AssignRoot _ | ContextView _ => True | _ => False end).
Proof.
  intros Hroot1. cbv [mbind M_bind bind modify emit ret].
  destruct (getRootNode env (activeTextEditor env) (set_view (Some view) s1))
    as [[r s3] e3] eqn:E3.
  apply getRootNode_cases in E3 as Hc3.
  destruct Hc3 as (Hroot3 & Ha3 & Hev3).
  destruct (setRoot r s3) as [[b s4] e4] eqn:E4.
  apply (kept_apply _ (fun a n => kept_setRoot a n _)) in E4 as Hk4.
  destruct Hk4 as [Ha4 _].
  intros [= <- <- <-].
  assert (Haux : aux s4 = aux (set_view (Some view) s1)) by congruence.
  injection Haux as Hv Hd Hwv Hwa _ _. simpl in *.
  split; [done|]. split; [done|]. split; [done|]. split; [done|].
  split; [left|].
  rewrite setRoot_eq in E4. rewrite Hroot3 in E4. simpl in E4. rewrite Hroot1 in E4.
  intros e H. rewrite ?app_nil_r in H.
  apply elem_of_cons in H as [->|H]; [done|].
  apply elem_of_app in H as [H|H].
  - destruct Hev3 as [(_ & -> & _)|(uri & k & _ & _ & ->)];
      mem_inv H ltac:(fun H => by subst e).
  - destruct (same_object _ _); injection E4 as _ _ <-;
      mem_inv H ltac:(fun H => by subst e).
Qed.

(** The outline of [onConfigurationChanged] at start-up. *)
Lemma initialise_outline env env' g s a wv wa subs next u st' ev :
  onConfigurationChanged env env' true g s a (initial wv wa subs next) = (u, st', ev) ->
  _view st'
  = Some (if bool_decide (configView env = GitExplorerView.Auto)
          then default GitExplorerView.Repository wv else configView env) /\
  workspaceView st' = wv /\
  workspaceAutoRefresh st' = wa /\
  (is_Some (_autoRefreshDisposable st') <-> autoRefresh env st' = true) /\
  ContextView (_view st') ∈ ev /\
  (forall e, e ∈ ev ->
     match e with
     | Dispose _ | FireTreeData _ | LogRefresh _ | UpdateView _
     | UpdateAutoRefresh _ | FireAutoRefresh | DisposeSubscription _ => False
     | _ => True
     end).
Proof.
  set (flag := configAutoRefresh env && default true wa).
  set (view := if bool_decide (configView env = GitExplorerView.Auto)
               then default GitExplorerView.Repository wv else configView env).
  set (s1 := if flag then subscribed (initial wv wa subs next)
             else initial wv wa subs next).
  set (e1 := (if flag then [Subscribe next] else []) ++ [ContextAutoRefresh flag]).
  assert (Heq : onConfigurationChanged env env' true g s a (initial wv wa subs next)
    = let '(u, sf, ef) :=
        bind (modify (set_view (Some view))) (fun _ =>
         bind (emit (ContextView (Some view))) (fun _ =>
         bind (getRootNode env (activeTextEditor env)) (fun r =>
         bind (setRoot r) (fun _ => ret tt)))) s1 in
      (u, sf, e1 ++ ef)).
  { unfold onConfigurationChanged.
    cbv [mbind M_bind bind gets emit modify ret when]. simpl.
    rewrite setAutoRefresh_flag_omitted. cbn zeta. simpl.
    fold flag. subst s1 e1 view.
    destruct flag, (bool_decide (configView env = _)); cbv beta iota zeta; simpl;
      destruct (getRootNode _ _ _) as [[r s3] e3];
      destruct (setRoot r s3) as [[b s4] e4]; simpl;
      by rewrite ?app_nil_r. }
  rewrite Heq. clear Heq.
  assert (H1 : _root s1 = None /\ workspaceView s1 = wv /\ workspaceAutoRefresh s1 = wa
               /\ (is_Some (_autoRefreshDisposable s1) <-> flag = true)).
  { subst s1. destruct flag; simpl; repeat split; eauto; try done. }
  destruct H1 as (Hroot1 & Hwv1 & Hwa1 & Hsub1).
  assert (He1 : forall e, e ∈ e1 ->
            match e with Subscribe _ | ContextAutoRefresh _ => True | _ => False end).
  { subst e1. intros e H. destruct flag; mem_inv H ltac:(fun H => by subst e). }
  clearbody s1 e1 view.
  destruct (bind _ _ s1) as [[u' sf] ef] eqn:Et.
  apply initialise_tail in Et; [|done].
  destruct Et as (Hv & Hd & Hwv & Hwa & Hctx & Hef).
  intros [= <- <- <-]. unfold autoRefresh.
  rewrite Hv, Hd, Hwv, Hwa, Hwv1, Hwa1.
  split; [done|]. split; [done|]. split; [done|]. split; [done|].
  split; [mem_yes|].
  intros e [H|H]%elem_of_app; [apply He1 in H|apply Hef in H]; by destruct e.
Qed.

(** X13. On start-up the explorer takes the configured view, or under
    [Auto] the view the workspace store holds, the repository view if it
    holds none. It writes nothing to the workspace store, subscribes to the
    repositories-changed event exactly when its [autoRefresh] getter says
    so, disposes nothing, and fires no tree refresh. *)
Theorem start_up_resolves_the_view env env' g s a wv wa subs next :
  let '(_, st', ev) :=
    onConfigurationChanged env env' true g s a (initial wv wa subs next) in
  _view st'
  = Some (if bool_decide (configView env = GitExplorerView.Auto)
          then default GitExplorerView.Repository wv else configView env) /\
  workspaceView st' = wv /\
  workspaceAutoRefresh st' = wa /\
  (is_Some (_autoRefreshDisposable st') <-> autoRefresh env st' = true) /\
  ContextView (_view st') ∈ ev /\
  (forall e, e ∈ ev ->
     match e with
     | Dispose _ | FireTreeData _ | LogRefresh _ | UpdateView _
     | UpdateAutoRefresh _ | FireAutoRefresh | DisposeSubscription _ => False
     | _ => True
     end).
Proof.
  destruct (onConfigurationChanged _ _ _ _ _ _ _) as [[u st'] ev] eqn:E.
  exact (initialise_outline _ _ _ _ _ _ _ _ _ _ _ _ E).
Qed.

(** X14. Under the configured view [Auto], [setView] to a view the
    explorer is not in writes that view to the workspace store, and an
    explorer started on that store comes up in it. [setView] to the view the
    explorer is in already returns before it writes: the store is as it
    was, and the next explorer comes up in the view the store held,
    [Repository] if it held none, which need not be the view asked for. *)
Theorem view_survives_restart env env2 env2' v st g s a wa subs next :
  configView env = GitExplorerView.Auto ->
  configView env2 = GitExplorerView.Auto ->
  let '(_, st1, ev1) := setView env v st in
  let '(_, st2, _) :=
    onConfigurationChanged env2 env2' true g s a
      (initial (workspaceView st1) wa subs next) in
  (_view st <> Some v ->
   workspaceView st1 = Some v /\ UpdateView v ∈ ev1 /\ _view st2 = Some v) /\
  (_view st = Some v ->
   st1 = st /\ ev1 = [] /\
   _view st2 = Some (default GitExplorerView.Repository (workspaceView st))).
Proof.
  intros Hauto Hauto2. rewrite setView_eq.
  destruct (decide (_view st = Some v)) as [Hv|Hv].
  - rewrite (bool_decide_eq_true_2 _ Hv).
    destruct (onConfigurationChanged _ _ _ _ _ _ _) as [[u st2] ev2] eqn:E.
    apply initialise_outline in E. destruct E as (-> & _).
    rewrite (bool_decide_eq_true_2 _ Hauto2).
    split; [by intros H|]. by intros _.
  - rewrite (bool_decide_eq_false_2 _ Hv), (bool_decide_eq_true_2 _ Hauto). simpl.
    destruct (onConfigurationChanged _ _ _ _ _ _ _) as [[u st2] ev2] eqn:E.
    apply initialise_outline in E. destruct E as (-> & _).
    rewrite (bool_decide_eq_true_2 _ Hauto2).
    split; [|by intros H]. intros _. split; [done|]. split; [left|done].
Qed.

(** The history view, chosen in a new explorer and found again by the
    next one; chosen once more in an explorer that shows it, over a store
    that holds the repository view, it is not found again. *)
Lemma view_survives_restart_witness :
  configView auto_env = GitExplorerView.Auto /\
  (let '(_, st1, ev1) :=
     setView auto_env GitExplorerView.History (initial None None [] 0) in
   let '(_, st2, _) :=
     onConfigurationChanged auto_env auto_env true false false false
       (initial (workspaceView st1) None [] 0) in
   workspaceView st1 = Some GitExplorerView.History /\
   _view st2 = Some GitExplorerView.History) /\
  (let '(_, st1, ev1) := setView auto_env GitExplorerView.History stale_state in
   let '(_, st2, _) :=
     onConfigurationChanged auto_env auto_env true false false false
       (initial (workspaceView st1) None [] 0) in
   st1 = stale_state /\ _view st2 = Some GitExplorerView.Repository).
Proof.
  split; [reflexivity|]. split.
  - pose proof (view_survives_restart auto_env auto_env auto_env GitExplorerView.History
                  (initial None None [] 0) false false false None [] 0
                  eq_refl eq_refl) as H.
    destruct (setView _ _ _) as [[u st1] ev1].
    destruct (onConfigurationChanged _ _ _ _ _ _ _) as [[u2 st2] ev2].
    destruct H as [H _]. destruct H as (H1 & _ & H2); [discriminate|].
    split; [exact H1|exact H2].
  - pose proof (view_survives_restart auto_env auto_env auto_env GitExplorerView.History
                  stale_state false false false None [] 0 eq_refl eq_refl) as H.
    destruct (setView _ _ _) as [[u st1] ev1].
    destruct (onConfigurationChanged _ _ _ _ _ _ _) as [[u2 st2] ev2].
    destruct H as [_ H]. destruct H as (H1 & _ & H2); [reflexivity|].
    split; [exact H1|exact H2].
Defined.

(** X15. With [gitExplorer.autoRefresh] configured on, the two commands
    toggle the workspace flag: Off stores [false], releases the subscription
    and notifies, without refreshing the tree; On after it stores [true],
    subscribes again, notifies and refreshes the tree. *)
Theorem autoRefresh_commands_toggle env st :
  configAutoRefresh env = true ->
  let '(_, s1, e1) := setAutoRefreshToOff env st in
  let '(_, s2, e2) := setAutoRefreshToOn env s1 in
  _autoRefreshDisposable s1 = None /\
  workspaceAutoRefresh s1 = Some false /\
  autoRefresh env s1 = false /\
  FireAutoRefresh ∈ e1 /\
  (forall reason, LogRefresh reason ∉ e1) /\
  is_Some (_autoRefreshDisposable s2) /\
  workspaceAutoRefresh s2 = Some true /\
  autoRefresh env s2 = true /\
  FireAutoRefresh ∈ e2 /\
  LogRefresh RefreshReason.AutoRefreshChanged ∈ e2.
Proof.
  intros Hcfg. unfold setAutoRefreshToOff, setAutoRefreshToOn, autoRefresh.
  rewrite Hcfg. rewrite setAutoRefresh_on. cbn zeta. simpl.
  rewrite setAutoRefresh_on. cbn zeta. simpl.
  destruct (refresh _ _ _ _) as [[[] s2] e2] eqn:Er.
  apply refresh_frame in Er. destruct Er as (Ha & _ & Hlog).
  injection Ha as _ Hd _ Hw _ _. simpl in *.
  destruct (released_fields st) as (Hr1 & _ & _).
  pose proof (released_events_inv st) as Hrel.
  rewrite Hr1, Hd, Hw. simpl.
  repeat split; eauto; try mem_yes.
  intros reason H.
  mem_inv H ltac:(fun H => first [ discriminate H
                                 | by (apply Hrel in H as [? ?]) ]).
Qed.

(** Off and then On, in a new explorer. *)
Lemma autoRefresh_commands_toggle_witness :
  configAutoRefresh one_repo_env = true /\
  let '(_, s1, e1) := setAutoRefreshToOff one_repo_env (initial None None [] 0) in
  let '(_, s2, e2) := setAutoRefreshToOn one_repo_env s1 in
  workspaceAutoRefresh s1 = Some false /\
  workspaceAutoRefresh s2 = Some true /\
  autoRefresh one_repo_env s2 = true.
Proof.
  split; [reflexivity|].
  pose proof (autoRefresh_commands_toggle one_repo_env (initial None None [] 0)
                eq_refl) as H.
  destruct (setAutoRefreshToOff _ _) as [[u1 s1] e1].
  destruct (setAutoRefreshToOn _ _) as [[u2 s2] e2].
  destruct H as (_ & H1 & _ & _ & _ & _ & H2 & H3 & _).
  split; [exact H1|]. split; [exact H2|exact H3].
Defined.

End ExplorerMore.

(* ===================================================================== *)
(** ** Facts about the function helpers *)
(* ===================================================================== *)

Module FunctionsFacts.

Import Functions.

Section Seeded.

Context {T Args R : Type}.
Variable fn : Args -> R.
Variable resolve : T -> R.

(** Once [cached] is [undefined] the closure is [fn]. *)
Lemma seeded_calls_spent calls :
  seeded_calls fn resolve None calls = (map fn calls, None, calls).
Proof.
  induction calls as [|args calls IH]; [done|].
  simpl. by rewrite IH.
Qed.

(** X16. The function [seeded] returns answers its first call with the
    seed, whatever the arguments, without calling [fn]; every later call is
    a call of [fn] with the same arguments, in order. Seeded with
    [undefined] it is [fn] from the first call on. The seed is never served
    twice. *)
Theorem seeded_serves_the_seed_once (seed : option T) (calls : list Args) :
  seeded_calls fn resolve (seeded seed) calls
  = match seed, calls with
    | Some v, args :: rest => (resolve v :: map fn rest, None, rest)
    | _, _ => (map fn calls, seed, calls)
    end.
Proof.
  unfold seeded. destruct seed as [v|].
  - destruct calls as [|args rest]; [done|].
    simpl. by rewrite seeded_calls_spent.
  - by rewrite seeded_calls_spent; destruct calls.
Qed.

End Seeded.

Section PropOf.

Context {V : Type}.
Variable nullish : V -> bool.
Variable get : V -> string -> V.

Lemma append_assoc (s1 s2 s3 : string) : (s1 +:+ s2) +:+ s3 = s1 +:+ (s2 +:+ s3).
Proof.
  induction s1 as [|c s1 IH]; [done|].
  change (String c ((s1 +:+ s2) +:+ s3) = String c (s1 +:+ (s2 +:+ s3))).
  by f_equal.
Qed.

Lemma foldl_dotted_prefix a k ks :
  foldl dotted (dotted a k) ks = a +:+ "." +:+ foldl dotted k ks.
Proof.
  revert k. induction ks as [|k' ks IH]; intros k; [done|].
  simpl. rewrite <- IH. f_equal. unfold dotted.
  by rewrite !append_assoc.
Qed.

(** The values [propOfCore] builds are the keys joined by dots. *)
Lemma foldl_dotted_concat k ks : foldl dotted k ks = String.concat "." (k :: ks).
Proof.
  revert k. induction ks as [|k' ks IH]; intros k; [done|].
  change (foldl dotted k (k' :: ks)) with (foldl dotted (dotted k k') ks).
  rewrite foldl_dotted_prefix, IH. done.
Qed.

Lemma last_cons_default (l : list string) a d : List.last l a = List.last (a :: l) d.
Proof.
  revert a d. induction l as [|b l IH]; intros a d; [done|].
  change (List.last (a :: b :: l) d) with (List.last (b :: l) d).
  by rewrite <- (IH b a), <- (IH b d).
Qed.

(** A chain from a function whose value is the current [propOfCore.value]. *)
Lemma chain_from o key v ks :
  chain nullish get (mkAccessor o key v) (Some v) ks
  = if forallb (fun i => negb (nullish (walk get o (take i (key :: ks)))))
         (seq 0 (length ks))
    then Some (mkAccessor (walk get o (take (length ks) (key :: ks)))
                 (List.last ks key) (foldl dotted v ks),
               Some (foldl dotted v ks))
    else None.
Proof.
  revert o key v. induction ks as [|k ks IH]; intros o key v; [done|].
  cbn [chain]. unfold call at 1. cbn [acc_o acc_key].
  cbn [length]. rewrite <- cons_seq, <- seq_shift. cbn [forallb].
  change (walk get o (take 0 (key :: k :: ks))) with o.
  destruct (nullish o); [done|]. simpl negb. cbn [andb mbind option_bind].
  unfold propOfCore. cbn [mbind option_bind]. rewrite IH.
  assert (Hall : forallb (fun i => negb (nullish (walk get o (take i (key :: k :: ks)))))
                   (map S (seq 0 (length ks)))
                 = forallb (fun i => negb (nullish (walk get (get o key) (take i (k :: ks)))))
                     (seq 0 (length ks))).
  { clear IH. induction (seq 0 (length ks)) as [|i l IHl]; [done|].
    cbn [map forallb]. rewrite IHl. reflexivity. }
  rewrite Hall. clear Hall.
  match goal with |- (if ?b then _ else _) = _ => destruct b end; [|done].
  by rewrite (last_cons_default ks k key).
Qed.

(** X17. [propOf(o, k0)(k1)...(kn)] carries the keys joined by dots as
    its [value], whatever the objects hold. It reads [o[k0]...[ki]] only for
    the keys before the last, so it throws exactly when one of the objects
    [o], [o[k0]], ..., [o[k0]...[kn-2]] is [undefined] or [null]; what
    the last key names plays no part. *)
Theorem propOf_chain_joins_the_keys (o : V) (k0 : string) (ks : list string) :
  let '(fn, cur) := propOf o k0 in
  chain nullish get fn cur ks
  = if forallb (fun i => negb (nullish (walk get o (take i (k0 :: ks)))))
         (seq 0 (length ks))
    then Some (mkAccessor (walk get o (take (length ks) (k0 :: ks)))
                 (List.last ks k0) (String.concat "." (k0 :: ks)),
               Some (String.concat "." (k0 :: ks)))
    else None.
Proof.
  unfold propOf, propOfCore. rewrite chain_from. by rewrite foldl_dotted_concat.
Qed.

(** Calls in a row, from any [propOfCore.value]. *)
Lemma calls_values v steps fns cur :
  calls nullish get (Some v) steps = Some (fns, cur) ->
  cur = Some (foldl dotted v steps.*2) /\
  length fns = length steps /\
  forall i fn, fns !! i = Some fn -> acc_value fn = foldl dotted v (take (S i) steps.*2).
Proof.
  revert v fns cur. induction steps as [|[f k] steps IH]; intros v fns cur.
  { intros [= <- <-]. split; [done|]. split; [done|]. by intros i fn H. }
  cbn [calls]. unfold call. destruct (nullish (acc_o f)); [done|].
  unfold propOfCore. cbn [mbind option_bind].
  destruct (calls nullish get (Some (v +:+ "." +:+ k)) steps) as [[fns' cur']|] eqn:E;
    [|done].
  cbn [mbind option_bind]. intros [= <- <-].
  destruct (IH _ _ _ E) as (Hcur & Hlen & Hval).
  split; [done|]. split; [simpl; by rewrite Hlen|].
  intros [|i] fn H.
  - by injection H as <-.
  - apply (Hval i fn H).
Qed.

(** X18. The [value] of the functions one [propOf] gives is kept in one
    place, on [propOfCore]: the value of the function a call returns is the
    value of the call before it with the key appended, whichever function
    was called. So the values list every key used so far, in the order of the
    calls, and a function called a second time does not start again from its
    own value. *)
Theorem propOf_value_follows_the_calls (o : V) (k0 : string) steps fns cur :
  calls nullish get (propOf o k0).2 steps = Some (fns, cur) ->
  cur = Some (String.concat "." (k0 :: steps.*2)) /\
  forall i fn, fns !! i = Some fn ->
    acc_value fn = String.concat "." (k0 :: take (S i) steps.*2).
Proof.
  unfold propOf, propOfCore. cbn [snd]. intros H.
  apply calls_values in H as (Hcur & _ & Hval).
  split; [by rewrite <- foldl_dotted_concat|].
  intros i fn Hfn. rewrite <- foldl_dotted_concat. by apply Hval.
Qed.

End PropOf.

(** The function [propOf(3, "a")] gives, called with ["b"] and then with
    ["c"], has the values ["a.b"] and ["a.b.c"]. *)
Lemma propOf_value_follows_the_calls_witness :
  calls sample_nullish sample_get (propOf 3 "a").2
    [((propOf 3 "a").1, "b"); ((propOf 3 "a").1, "c")]
  = Some ([mkAccessor 2 "b" "a.b"; mkAccessor 2 "c" "a.b.c"], Some "a.b.c") /\
  acc_value (mkAccessor 2 "c" "a.b.c") = String.concat "." ["a"; "b"; "c"].
Proof.
  split; [reflexivity|].
  exact (proj2 (propOf_value_follows_the_calls sample_nullish sample_get 3 "a"
                  [((propOf 3 "a").1, "b"); ((propOf 3 "a").1, "c")]
                  _ _ eq_refl) 1 _ eq_refl).
Defined.

End FunctionsFacts.

(* ===================================================================== *)
(** ** More about the line blame commands *)
(* ===================================================================== *)

Module CommandsMore.

Import Commands.

(** The cases of [H : e ∈ l] for a list [l] that is written out. *)
Ltac effect_cases H :=
  repeat (apply elem_of_cons in H as [H|H]; [try discriminate H|]);
  try (by apply elem_of_nil in H).

Section Execute.

Context {LineAnnotationType Exception Value TextEditor : Type}.
Variable configuration_get : Completion (Exception := Exception) LineAnnotationType.
Variable controller :
  option TextEditor -> LineAnnotationType ->
  Completion (Exception := Exception) (Promise (Exception := Exception) Value).

(** X19. A type given in [args] wins over the configuration, which is
    then not read; without it the configured type is used. The controller is
    called with the editor of the command and that type, and with nothing
    else. When reading the configuration throws, the controller is not
    called at all: the exception is logged under the class name and the
    promise is fulfilled with the message shown. *)
Theorem line_blame_type_is_given_or_configured classname message editor args_type :
  let '(promise, effects) :=
    execute configuration_get controller classname message editor args_type in
  (ConfigurationGet ∈ effects <-> args_type = None) /\
  (forall e t, ControllerCall e t ∈ effects ->
     e = editor /\
     match args_type with
     | Some type => t = type
     | None => configuration_get = Returns t
     end) /\
  (forall ex, args_type = None -> configuration_get = Throws ex ->
     promise = Fulfilled (ErrorMessageShown message) /\
     effects = [ConfigurationGet; LoggerError ex classname; ShowErrorMessage message]).
Proof.
  unfold execute, try_block.
  destruct args_type as [type|]; [|destruct configuration_get as [type|ex0]];
    try destruct (controller editor type) as [[v|ex1]|ex1]; simpl.
  all: split; [split; [intros H; effect_cases H; reflexivity
                      |intros H; first [discriminate H|left]]|].
  all: split; [intros e t H; effect_cases H; injection H as -> ->; by split|].
  all: intros ex H1 H2; try discriminate H1; try discriminate H2;
    injection H2 as <-; by split.
Qed.

End Execute.

End CommandsMore.
